(** * Ecommerce.py: an in-memory shop (customers, products, orders)

    A shallow embedding of [src/Ecommerce.py].  Python objects that are
    mutated while shared ([Produto], reached both from [Menu.produtos] and
    from every [ItemPedido] that names it) live in a store indexed by
    locations; the console is part of the program state; exceptions are
    results.  [decimal.Decimal] is modelled with the default context of the
    [decimal] module (28 significant digits, ROUND_HALF_EVEN,
    Emax = 999999, Emin = -999999, traps on InvalidOperation and Overflow).
    Text is a string of bytes, and [int], [Decimal] and [str.lower] are
    modelled on ASCII input. *)

From Stdlib Require Import ZArith NArith QArith Qpower Bool Ascii String Lia Permutation.
From stdpp Require Import base option list strings.

Local Open Scope Z_scope.

(** ** Exceptions the program can raise *)

Inductive exn :=
| ValueError          (* builtins.ValueError *)
| InvalidOperation    (* decimal.InvalidOperation, an ArithmeticError *)
| Overflow            (* decimal.Overflow, an ArithmeticError *)
| EOFError.           (* input() on an exhausted stdin *)


(** ** decimal.Decimal under the default context *)

Inductive Decimal :=
| DFinite (sign : bool) (coef : N) (exp : Z)   (* (-1)^sign * coef * 10^exp *)
| DInfinity (sign : bool)
| DNaN (sign : bool) (signaling : bool) (payload : N).

Definition prec : Z := 28.
Definition Emax : Z := 999999.
Definition Emin : Z := -999999.
Definition Etiny : Z := Emin - prec + 1.
Definition Etop : Z := Emax - prec + 1.

Fixpoint ndigits_aux (fuel : nat) (n : N) : Z :=
  match fuel with
  | O => 1
  | S f => if (n <? 10)%N then 1 else 1 + ndigits_aux f (n / 10)%N
  end.

(** [len(str(n))]: the number of decimal digits of a coefficient. *)
Definition ndigits (n : N) : Z := ndigits_aux (N.to_nat (N.size n)) n.

Definition pow10 (k : Z) : N := (10 ^ Z.to_N k)%N.

(** ROUND_HALF_EVEN on dropping the last [k] digits of [c]: does the kept
    part go up by one? *)
Definition rounds_up (c : N) (k : Z) : bool :=
  let q := (c / pow10 k)%N in
  let r := (c mod pow10 k)%N in
  match (2 * r ?= pow10 k)%N with
  | Lt => false
  | Gt => true
  | Eq => N.odd q
  end.

(** [Decimal._fix]: fit a finite result into the context. *)
Definition Dfix (s : bool) (c : N) (e : Z) : exn + Decimal :=
  if (c =? 0)%N then inr (DFinite s 0 (Z.min (Z.max e Etiny) Emax))
  else
    let exp_min := ndigits c + e - prec in
    if Etop <? exp_min then inl Overflow
    else
      let exp_min := Z.max exp_min Etiny in
      if e <? exp_min then
        let digits := ndigits c + e - exp_min in
        let c' := if digits <? 0 then 1%N else c in
        let k := if digits <? 0 then 1 else exp_min - e in
        let up := rounds_up c' k in
        let coeff := (c' / pow10 k + (if up then 1 else 0))%N in
        let carry := up && (prec <? ndigits coeff) in
        let coeff := if carry then (coeff / 10)%N else coeff in
        let exp_min := if carry then exp_min + 1 else exp_min in
        if Etop <? exp_min then inl Overflow else inr (DFinite s coeff exp_min)
      else inr (DFinite s c e).

Definition fix_nan (s : bool) (payload : N) : Decimal :=
  if prec <? ndigits payload then DNaN s false (payload mod pow10 prec)%N
  else DNaN s false payload.

Definition check_nans (a b : Decimal) : option (exn + Decimal) :=
  match a, b with
  | DNaN _ true _, _ => Some (inl InvalidOperation)
  | _, DNaN _ true _ => Some (inl InvalidOperation)
  | DNaN s false p, _ => Some (inr (fix_nan s p))
  | _, DNaN s false p => Some (inr (fix_nan s p))
  | _, _ => None
  end.

(** [a * b] *)
Definition Dmul (a b : Decimal) : exn + Decimal :=
  match check_nans a b with
  | Some r => r
  | None =>
    match a, b with
    | DFinite s1 c1 e1, DFinite s2 c2 e2 => Dfix (xorb s1 s2) (c1 * c2) (e1 + e2)
    | DInfinity s1, DInfinity s2 => inr (DInfinity (xorb s1 s2))
    | DInfinity s1, DFinite s2 c2 _ =>
        if (c2 =? 0)%N then inl InvalidOperation else inr (DInfinity (xorb s1 s2))
    | DFinite s1 c1 _, DInfinity s2 =>
        if (c1 =? 0)%N then inl InvalidOperation else inr (DInfinity (xorb s1 s2))
    | _, _ => inl InvalidOperation
    end
  end.

Definition signed (s : bool) (c : N) : Z := if s then - Z.of_N c else Z.of_N c.

(** [a + b]: the exact sum at the smaller exponent, then [_fix]. *)
Definition Dadd (a b : Decimal) : exn + Decimal :=
  match check_nans a b with
  | Some r => r
  | None =>
    match a, b with
    | DFinite s1 c1 e1, DFinite s2 c2 e2 =>
        let e := Z.min e1 e2 in
        let r := signed s1 (c1 * pow10 (e1 - e)) + signed s2 (c2 * pow10 (e2 - e)) in
        if r =? 0 then Dfix (s1 && s2) 0 e
        else Dfix (r <? 0) (Z.abs_N r) e
    | DInfinity s1, DInfinity s2 =>
        if Bool.eqb s1 s2 then inr (DInfinity s1) else inl InvalidOperation
    | DInfinity s1, _ => inr (DInfinity s1)
    | _, DInfinity s2 => inr (DInfinity s2)
    | _, _ => inl InvalidOperation
    end
  end.

(** [d < 0]: an ordering comparison with a NaN signals. *)
Definition Dlt_zero (d : Decimal) : exn + bool :=
  match d with
  | DFinite s c _ => inr (s && negb (c =? 0)%N)
  | DInfinity s => inr s
  | DNaN _ _ _ => inl InvalidOperation
  end.

(** [Decimal(n)] for an int [n]: exact, the context is not applied. *)
Definition Decimal_of_int (n : Z) : Decimal := DFinite (n <? 0) (Z.abs_N n) 0.

(** The rational a finite decimal denotes. *)
Definition Dvalue (d : Decimal) : option Q :=
  match d with
  | DFinite s c e => Some (inject_Z (signed s c) * Qpower (inject_Z 10) e)%Q
  | _ => None
  end.

(** [0 <= d] as a property of a stored value. *)
Definition Dnonneg (d : Decimal) : Prop := Dlt_zero d = inr false.

(** What [sum] returns: the int [0] it starts from, or a [Decimal]. *)
Inductive Number :=
| NInt (z : Z)
| NDec (d : Decimal).

(** [acc + d] inside [sum]; an int on the left is converted first. *)
Definition Nadd (acc : Number) (d : Decimal) : exn + Number :=
  let a := match acc with NInt z => Decimal_of_int z | NDec a => a end in
  match Dadd a d with
  | inl e => inl e
  | inr r => inr (NDec r)
  end.

(** ** Strings: str.lower, int(str), Decimal(str) on ASCII text *)

Definition isspace (c : ascii) : bool :=
  let n := nat_of_ascii c in
  ((9 <=? n) && (n <=? 13) || (28 <=? n) && (n <=? 32))%nat.

(** [int] skips fewer characters than [str.strip] does. *)
Definition isspace_int (c : ascii) : bool :=
  let n := nat_of_ascii c in
  ((9 <=? n) && (n <=? 13) || (n =? 32))%nat.

Definition digit_of (c : ascii) : option N :=
  let n := N_of_ascii c in
  if ((48 <=? n) && (n <=? 57))%N then Some (n - 48)%N else None.

Definition lower_ascii (c : ascii) : ascii :=
  let n := nat_of_ascii c in
  if ((65 <=? n) && (n <=? 90))%nat then ascii_of_nat (n + 32) else c.

Definition lower (s : string) : string :=
  string_of_list_ascii (map lower_ascii (list_ascii_of_string s)).

Fixpoint lstrip (sp : ascii -> bool) (cs : list ascii) : list ascii :=
  match cs with
  | c :: cs' => if sp c then lstrip sp cs' else cs
  | [] => []
  end.

Definition strip (sp : ascii -> bool) (cs : list ascii) : list ascii :=
  rev (lstrip sp (rev (lstrip sp cs))).

Definition split_sign (cs : list ascii) : bool * list ascii :=
  match cs with
  | "-"%char :: cs' => (true, cs')
  | "+"%char :: cs' => (false, cs')
  | _ => (false, cs)
  end.

(** digit ("_"? digit)* *)
Fixpoint int_digits (acc : N) (after_digit : bool) (cs : list ascii) : option N :=
  match cs with
  | [] => if after_digit then Some acc else None
  | c :: cs' =>
      match digit_of c with
      | Some d => int_digits (10 * acc + d) true cs'
      | None =>
          if Ascii.eqb c "_" && after_digit then int_digits acc false cs' else None
      end
  end.

(** [int(s)] *)
Definition py_int (s : string) : exn + Z :=
  let '(neg, cs) := split_sign (strip isspace_int (list_ascii_of_string s)) in
  match int_digits 0 false cs with
  | Some n => inr (if neg then - Z.of_N n else Z.of_N n)
  | None => inl ValueError
  end.

(** The leading run of digits: its value, its length, what follows. *)
Fixpoint span_digits (acc : N) (len : Z) (cs : list ascii) : N * Z * list ascii :=
  match cs with
  | c :: cs' =>
      match digit_of c with
      | Some d => span_digits (10 * acc + d) (len + 1) cs'
      | None => (acc, len, cs)
      end
  | [] => (acc, len, [])
  end.

Definition parse_exponent (cs : list ascii) : option Z :=
  match cs with
  | [] => Some 0
  | "e"%char :: cs' =>
      let '(neg, ds) := split_sign cs' in
      match span_digits 0 0 ds with
      | (n, len, []) =>
          if 0 <? len then Some (if neg then - Z.of_N n else Z.of_N n) else None
      | _ => None
      end
  | _ => None
  end.

Definition parse_number (s : bool) (cs : list ascii) : option Decimal :=
  let '(ip, ilen, r1) := span_digits 0 0 cs in
  let '(fp, flen, r2) :=
    match r1 with
    | "."%char :: r => span_digits ip 0 r
    | _ => (ip, 0, r1)
    end in
  if 0 <? ilen + flen then
    match parse_exponent r2 with
    | Some e => Some (DFinite s fp (e - flen))
    | None => None
    end
  else None.

Definition parse_nan (s sig : bool) (cs : list ascii) : option Decimal :=
  match span_digits 0 0 cs with
  | (n, _, []) => Some (DNaN s sig n)
  | _ => None
  end.

(** [Decimal(str)]: exact, whatever the number of digits. *)
Definition py_Decimal (str : string) : exn + Decimal :=
  let cs := map lower_ascii
              (filter (fun c => c <> "_"%char) (strip isspace (list_ascii_of_string str))) in
  let '(s, body) := split_sign cs in
  let r :=
    match body with
    | ["i"; "n"; "f"]%char => Some (DInfinity s)
    | ["i"; "n"; "f"; "i"; "n"; "i"; "t"; "y"]%char => Some (DInfinity s)
    | "n"%char :: "a"%char :: "n"%char :: diag => parse_nan s false diag
    | "s"%char :: "n"%char :: "a"%char :: "n"%char :: diag => parse_nan s true diag
    | _ => parse_number s body
    end in
  match r with
  | Some d => inr d
  | None => inl InvalidOperation
  end.

(** ** Python dict: insertion-ordered, one entry per key *)

Definition dict (V : Type) : Type := list (string * V).

Fixpoint dict_get {V} (k : string) (d : dict V) : option V :=
  match d with
  | [] => None
  | (k', v) :: d' => if String.eqb k k' then Some v else dict_get k d'
  end.

(** [d[k] = v]: an existing key keeps its position. *)
Fixpoint dict_set {V} (k : string) (v : V) (d : dict V) : dict V :=
  match d with
  | [] => [(k, v)]
  | (k', v') :: d' =>
      if String.eqb k k' then (k, v) :: d' else (k', v') :: dict_set k v d'
  end.

(** ** The classes *)

Module Pessoa.
Record t := mk { nome : string; cpf : string; email : string }.
Definition init (nome cpf email : string) : t := mk nome cpf email.
End Pessoa.

Module Cliente.
(** [id_cliente] is [str(uuid.uuid4())]; the model draws it from a counter
    kept in the program state. *)
Record t := mk { pessoa : Pessoa.t; id_cliente : nat }.
Definition init (pessoa : Pessoa.t) (uuid : nat) : t := mk pessoa uuid.
End Cliente.

Module Produto.
Record t := mk { nome : string; preco : Decimal; estoque : Z }.

Definition init (nome : string) (preco : Decimal) (estoque : Z) : exn + t :=
  match Dlt_zero preco with
  | inl e => inl e
  | inr true => inl ValueError
  | inr false =>
      if estoque <? 0 then inl ValueError else inr (mk nome preco estoque)
  end.

Definition set_estoque (n : Z) (p : t) : t := mk (nome p) (preco p) n.
End Produto.

(** Product objects are shared, so they are kept in a store; a location is
    the index of the object, in allocation order. *)
Abbreviation loc := nat (only parsing).
Abbreviation Heap := (list Produto.t) (only parsing).

(** A reference always points to a live object; the default below is what
    the model reads through a location nothing was allocated at. *)
Definition deref (h : Heap) (l : loc) : Produto.t :=
  default (Produto.mk "" (DFinite false 0 0) 0) (h !! l).

Module ItemPedido.
Record t := mk { produto : loc; quantidade : Z }.

Definition init (produto : loc) (quantidade : Z) : exn + t :=
  if quantidade <=? 0 then inl ValueError else inr (mk produto quantidade).

Definition calcular_total (h : Heap) (self : t) : exn + Decimal :=
  Dmul (Produto.preco (deref h (produto self))) (Decimal_of_int (quantidade self)).
End ItemPedido.

Module Pedido.
Record t := mk { cliente : Cliente.t; itens : list ItemPedido.t }.

Definition init (cliente : Cliente.t) : t := mk cliente [].

Definition adicionar_item (self : t) (produto : loc) (quantidade : Z) : exn + t :=
  match ItemPedido.init produto quantidade with
  | inl e => inl e
  | inr item => inr (mk (cliente self) (itens self ++ [item]))
  end.

(** [sum(...)] over the generator: each subtotal is computed, then added to
    the running total, left to right. *)
Fixpoint sum_totais (h : Heap) (acc : Number) (itens : list ItemPedido.t)
  : exn + Number :=
  match itens with
  | [] => inr acc
  | item :: rest =>
      match ItemPedido.calcular_total h item with
      | inl e => inl e
      | inr d =>
          match Nadd acc d with
          | inl e => inl e
          | inr acc' => sum_totais h acc' rest
          end
      end
  end.

Definition calcular_total (h : Heap) (self : t) : exn + Number :=
  sum_totais h (NInt 0) (itens self).
End Pedido.

(** ** The console *)

Inductive Prompt :=
| PNome | PCpf | PEmail
| PNomeProduto | PPreco | PEstoque
| PCpfCliente
| PProdutoOuFim | PQuantidade
| POpcao.

(** One constructor per [print] call of the source (the menu banner is one),
    with the values its f-string formats. *)
Inductive Output :=
| OutPrompt (p : Prompt)
| OutClienteCadastrado (c : Cliente.t)
| OutProdutoCadastrado (p : Produto.t)
| OutClienteNaoEncontrado
| OutProdutosDisponiveis
| OutProduto (nome : string) (preco : Decimal) (estoque : Z)
| OutProdutoNaoEncontrado
| OutEstoqueInsuficiente
| OutQuantidadeInvalida
| OutTotalDoPedido (total : Number)
| OutPedido (idx : nat) (nome : string)
| OutItem (nome : string) (quantidade : Z) (total : Decimal)
| OutTotal (total : Number)
| OutMenu
| OutSaindo
| OutOpcaoInvalida.

(** ** Program state *)

(** The fields of a [Menu] object. *)
Record Menu := mkMenu {
  clientes : dict Cliente.t;
  produtos : dict loc;
  pedidos : list Pedido.t
}.

Record World := mkWorld {
  menu : Menu;
  heap : Heap;
  uuids : nat;              (* identifiers handed out so far *)
  stdin : list string;      (* lines not read yet *)
  stdout : list Output      (* what was printed, oldest first *)
}.

Definition set_menu (f : Menu -> Menu) (w : World) : World :=
  mkWorld (f (menu w)) (heap w) (uuids w) (stdin w) (stdout w).
Definition set_heap (f : Heap -> Heap) (w : World) : World :=
  mkWorld (menu w) (f (heap w)) (uuids w) (stdin w) (stdout w).
Definition set_stdin (ins : list string) (w : World) : World :=
  mkWorld (menu w) (heap w) (uuids w) ins (stdout w).
Definition put (o : list Output) (w : World) : World :=
  mkWorld (menu w) (heap w) (uuids w) (stdin w) (stdout w ++ o).

(** ** Computations: state, exceptions, and fuel for the two [while True] *)

Inductive Result (A : Type) : Type :=
| Return (a : A) (w : World)
| Raise (e : exn) (w : World)
| OutOfFuel.
Arguments Return {A} a w.
Arguments Raise {A} e w.
Arguments OutOfFuel {A}.

Definition M (A : Type) : Type := World -> Result A.

#[export] Instance M_ret : MRet M := fun A a w => Return a w.
#[export] Instance M_bind : MBind M := fun A B k m w =>
  match m w with
  | Return a w' => k a w'
  | Raise e w' => Raise e w'
  | OutOfFuel => OutOfFuel
  end.

Definition raise {A} (e : exn) : M A := fun w => Raise e w.
Definition lift {A} (r : exn + A) : M A :=
  match r with inl e => raise e | inr a => mret a end.
Definition gets {A} (f : World -> A) : M A := fun w => Return (f w) w.
Definition modify (f : World -> World) : M unit := fun w => Return tt (f w).

(** [try: body except ValueError: handler] *)
Definition try_except_ValueError {A} (body handler : M A) : M A := fun w =>
  match body w with
  | Raise ValueError w' => handler w'
  | r => r
  end.

Definition print (o : Output) : M unit := modify (put [o]).

(** [input(prompt)] *)
Definition input (p : Prompt) : M string := fun w =>
  let w := put [OutPrompt p] w in
  match stdin w with
  | [] => Raise EOFError w
  | line :: rest => Return line (set_stdin rest w)
  end.

Fixpoint for_each {A} (f : A -> M unit) (l : list A) : M unit :=
  match l with
  | [] => mret tt
  | a :: l' => f a ;; for_each f l'
  end.

(** ** class Menu *)

(** [Menu()] in a fresh process reading [ins]. *)
Definition Menu_init (ins : list string) : World :=
  mkWorld (mkMenu [] [] []) [] 0 ins [].

Definition set_cliente (cpf : string) (c : Cliente.t) (m : Menu) : Menu :=
  mkMenu (dict_set cpf c (clientes m)) (produtos m) (pedidos m).
Definition set_produto (nome : string) (l : loc) (m : Menu) : Menu :=
  mkMenu (clientes m) (dict_set nome l (produtos m)) (pedidos m).
Definition append_pedido (p : Pedido.t) (m : Menu) : Menu :=
  mkMenu (clientes m) (produtos m) (pedidos m ++ [p]).

(** [uuid.uuid4()] *)
Definition uuid4 : M nat := fun w =>
  Return (uuids w) (mkWorld (menu w) (heap w) (S (uuids w)) (stdin w) (stdout w)).

(** A new [Produto] object; its location is returned. *)
Definition alloc (p : Produto.t) : M loc := fun w =>
  Return (length (heap w)) (set_heap (fun h => h ++ [p]) w).

(** [produto.estoque -= quantidade] *)
Definition debitar (l : loc) (quantidade : Z) (h : Heap) : Heap :=
  <[l := Produto.set_estoque (Produto.estoque (deref h l) - quantidade) (deref h l)]> h.

Definition cadastrar_cliente (nome cpf email : string) : M unit :=
  let pessoa := Pessoa.init nome cpf email in
  uuid ← uuid4;
  let cliente := Cliente.init pessoa uuid in
  modify (set_menu (set_cliente cpf cliente));;
  print (OutClienteCadastrado cliente).

Definition cadastrar_produto (nome : string) (preco : Decimal) (estoque : Z) : M unit :=
  produto ← lift (Produto.init nome preco estoque);
  l ← alloc produto;
  modify (set_menu (set_produto nome l));;
  print (OutProdutoCadastrado produto).

(** How one pass through the body of [while True] ends. *)
Inductive Control :=
| Break (pedido : Pedido.t)
| Continue (pedido : Pedido.t).

Definition listar_produtos (w : World) : list Output :=
  map (fun '(nome, l) =>
         OutProduto nome (Produto.preco (deref (heap w) l))
                         (Produto.estoque (deref (heap w) l)))
      (produtos (menu w)).

(** One pass through the loop of [criar_pedido] (lines 175-193). *)
Definition criar_pedido_iter (pedido : Pedido.t) : M Control :=
  print OutProdutosDisponiveis;;
  linhas ← gets listar_produtos;
  modify (put linhas);;
  nome_produto ← input PProdutoOuFim;
  if String.eqb (lower nome_produto) "fim" then mret (Break pedido)
  else
    produto ← gets (fun w => dict_get nome_produto (produtos (menu w)));
    match produto with
    | None => print OutProdutoNaoEncontrado;; mret (Continue pedido)
    | Some l =>
        try_except_ValueError
          (linha ← input PQuantidade;
           quantidade ← lift (py_int linha);
           estoque ← gets (fun w => Produto.estoque (deref (heap w) l));
           if estoque <? quantidade
           then print OutEstoqueInsuficiente;; mret (Continue pedido)
           else
             pedido' ← lift (Pedido.adicionar_item pedido l quantidade);
             modify (set_heap (debitar l quantidade));;
             mret (Continue pedido'))
          (print OutQuantidadeInvalida;; mret (Continue pedido))
    end.

Fixpoint criar_pedido_loop (fuel : nat) (pedido : Pedido.t) : M Pedido.t :=
  match fuel with
  | O => fun _ => OutOfFuel
  | S fuel =>
      c ← criar_pedido_iter pedido;
      match c with
      | Break pedido => mret pedido
      | Continue pedido => criar_pedido_loop fuel pedido
      end
  end.

(** Every pass reads a line or ends the loop, so one more pass than there
    are lines on stdin is enough. *)
Definition enough_fuel : M nat := gets (fun w => S (length (stdin w))).

Definition criar_pedido (cpf : string) : M unit :=
  cliente ← gets (fun w => dict_get cpf (clientes (menu w)));
  match cliente with
  | None => print OutClienteNaoEncontrado
  | Some cliente =>
      fuel ← enough_fuel;
      pedido ← criar_pedido_loop fuel (Pedido.init cliente);
      h ← gets heap;
      total ← lift (Pedido.calcular_total h pedido);
      print (OutTotalDoPedido total);;
      modify (set_menu (append_pedido pedido))
  end.

Definition listar_item (item : ItemPedido.t) : M unit :=
  h ← gets heap;
  total ← lift (ItemPedido.calcular_total h item);
  print (OutItem (Produto.nome (deref h (ItemPedido.produto item)))
                 (ItemPedido.quantidade item) total).

Definition listar_pedido (entry : nat * Pedido.t) : M unit :=
  let '(idx, pedido) := entry in
  print (OutPedido idx (Pessoa.nome (Cliente.pessoa (Pedido.cliente pedido))));;
  for_each listar_item (Pedido.itens pedido);;
  h ← gets heap;
  total ← lift (Pedido.calcular_total h pedido);
  print (OutTotal total).

(** [enumerate(l, 1)] *)
Definition enumerate1 {A} (l : list A) : list (nat * A) :=
  imap (fun i a => (S i, a)) l.

Definition listar_pedidos : M unit :=
  ps ← gets (fun w => pedidos (menu w));
  for_each listar_pedido (enumerate1 ps).

Fixpoint exibir_menu_loop (fuel : nat) : M unit :=
  match fuel with
  | O => fun _ => OutOfFuel
  | S fuel =>
      print OutMenu;;
      opcao ← input POpcao;
      if String.eqb opcao "1" then
        nome ← input PNome;
        cpf ← input PCpf;
        email ← input PEmail;
        cadastrar_cliente nome cpf email;;
        exibir_menu_loop fuel
      else if String.eqb opcao "2" then
        nome ← input PNomeProduto;
        linha ← input PPreco;
        preco ← lift (py_Decimal linha);
        linha ← input PEstoque;
        estoque ← lift (py_int linha);
        cadastrar_produto nome preco estoque;;
        exibir_menu_loop fuel
      else if String.eqb opcao "3" then
        cpf ← input PCpfCliente;
        criar_pedido cpf;;
        exibir_menu_loop fuel
      else if String.eqb opcao "4" then
        listar_pedidos;;
        exibir_menu_loop fuel
      else if String.eqb opcao "0" then
        print OutSaindo
      else
        print OutOpcaoInvalida;;
        exibir_menu_loop fuel
  end.

Definition exibir_menu : M unit :=
  fuel ← enough_fuel;
  exibir_menu_loop fuel.

(** The program: [Menu().exibir_menu()] on the given stdin. *)
Definition main (ins : list string) : Result unit := exibir_menu (Menu_init ins).

(** * Vocabulary of the properties *)

(** ** Outcomes *)

(** The state a computation leaves behind, however it ended. *)
Definition final {A} (r : Result A) : option World :=
  match r with
  | Return _ w => Some w
  | Raise _ w => Some w
  | OutOfFuel => None
  end.

(** What the console shows at the top of every pass of the order loop. *)
Definition vitrine (w : World) : list Output :=
  OutProdutosDisponiveis :: listar_produtos w ++ [OutPrompt PProdutoOuFim].



Definition ana : Cliente.t := Cliente.mk (Pessoa.mk "Ana" "000" "ana@example.org") 0.




(** Lines 194-196: what [criar_pedido] does once the loop has ended. *)
Definition fechar_pedido (pedido : Pedido.t) : M unit :=
  h ← gets heap;
  total ← lift (Pedido.calcular_total h pedido);
  print (OutTotalDoPedido total);;
  modify (set_menu (append_pedido pedido)).

(** The shop of [w_book] with Ana registered under the tax id 000. *)
Definition w_ana (ins : list string) : World :=
  mkWorld (mkMenu [("000"%string, ana)] [("Book"%string, 0%nat)] [])
          [Produto.mk "Book" (DFinite false 1990 (-2)) 10] 1 ins [].

(** ** Exact arithmetic on the lines of an order *)

(** What a total denotes. *)
Definition Nvalue (n : Number) : option Q :=
  match n with
  | NInt z => Some (inject_Z z)
  | NDec d => Dvalue d
  end.

Definition item_preco (h : Heap) (item : ItemPedido.t) : Decimal :=
  Produto.preco (deref h (ItemPedido.produto item)).

Definition item_coef (h : Heap) (item : ItemPedido.t) : N :=
  match item_preco h item with DFinite _ c _ => c | _ => 0%N end.

Definition item_exp (h : Heap) (item : ItemPedido.t) : Z :=
  match item_preco h item with DFinite _ _ e => e | _ => 0 end.

(** A line the exact-arithmetic argument covers: a finite price that is not
    negative, at an exponent the context can hold, and a positive quantity. *)
Definition linha_ok (h : Heap) (item : ItemPedido.t) : Prop :=
  (exists s c e, item_preco h item = DFinite s c e /\ (s = false \/ c = 0%N)) /\
  Etiny <= item_exp h item <= Etop /\
  0 < ItemPedido.quantidade item.

(** The smallest exponent among [m] and the prices of the lines. *)
Fixpoint min_exp (h : Heap) (m : Z) (itens : list ItemPedido.t) : Z :=
  match itens with
  | [] => m
  | item :: rest => min_exp h (Z.min m (item_exp h item)) rest
  end.

(** [price * quantity] as an integer number of units [10^e0]. *)
Definition scaled (h : Heap) (e0 : Z) (item : ItemPedido.t) : N :=
  (item_coef h item * Z.to_N (ItemPedido.quantidade item) * pow10 (item_exp h item - e0))%N.

Fixpoint total_scaled (h : Heap) (e0 : Z) (itens : list ItemPedido.t) : N :=
  match itens with
  | [] => 0%N
  | item :: rest => (scaled h e0 item + total_scaled h e0 rest)%N
  end.

(** The sum of [price * quantity] over the lines, as a rational. *)
Fixpoint soma_exata (h : Heap) (itens : list ItemPedido.t) : Q :=
  match itens with
  | [] => 0%Q
  | item :: rest =>
      (match Dvalue (item_preco h item) with Some v => v | None => 0 end
         * inject_Z (ItemPedido.quantidade item) + soma_exata h rest)%Q
  end.

(** Example data: a store with books at 19.90 and pens at 1.5. *)
Definition h_loja : Heap :=
  [Produto.mk "Book" (DFinite false 1990 (-2)) 7; Produto.mk "Pen" (DFinite false 15 (-1)) 3].

(** The totals printed when orders are closed, oldest first. *)
Definition totais (out : list Output) : list Number :=
  omap (fun o => match o with OutTotalDoPedido t => Some t | _ => None end) out.

(** A session at the menu: a customer, the products A at 1E+28 and B at 6,
    and four orders of A and B, one unit a line. *)
Definition sessao_grande : list string :=
  ["1"; "Ana"; "000"; "ana@example.org";
   "2"; "A"; "1E+28"; "9";
   "2"; "B"; "6"; "9";
   "3"; "000"; "A"; "1"; "B"; "1"; "fim";
   "3"; "000"; "B"; "1"; "A"; "1"; "fim";
   "3"; "000"; "A"; "1"; "B"; "1"; "B"; "1"; "fim";
   "3"; "000"; "B"; "1"; "B"; "1"; "A"; "1"; "fim";
   "0"]%string.

(** ** Invariants *)

Definition produto_ok (p : Produto.t) : Prop :=
  Dnonneg (Produto.preco p) /\ 0 <= Produto.estoque p.

Definition item_ok (h : Heap) (item : ItemPedido.t) : Prop :=
  (ItemPedido.produto item < Datatypes.length h)%nat /\ 0 < ItemPedido.quantidade item.

Definition pedido_ok (h : Heap) (pedido : Pedido.t) : Prop :=
  Forall (item_ok h) (Pedido.itens pedido).

(** A recorded order names live products and its total can be computed. *)
Definition registrado (h : Heap) (pedido : Pedido.t) : Prop :=
  pedido_ok h pedido /\ exists t, Pedido.calcular_total h pedido = inr t.

Record Inv (w : World) : Prop := mkInv {
  inv_heap : Forall produto_ok (heap w);
  inv_dict : forall nome l, dict_get nome (produtos (menu w)) = Some l ->
                            (l < Datatypes.length (heap w))%nat;
  inv_pedidos : Forall (registrado (heap w)) (pedidos (menu w))
}.

(** The store only grows, and a product keeps its name and its price. *)
Definition heap_le (h h' : Heap) : Prop :=
  (Datatypes.length h <= Datatypes.length h')%nat /\
  forall l, (l < Datatypes.length h)%nat ->
    Produto.preco (deref h' l) = Produto.preco (deref h l) /\
    Produto.nome (deref h' l) = Produto.nome (deref h l).

(** The ways a pass through the order loop can end: end of input, the
    sentinel, a rejected attempt, a line added. *)
Inductive iter_outcome (pedido : Pedido.t) (w : World) : Result Control -> Prop :=
| iter_raise w' :
    menu w' = menu w -> heap w' = heap w ->
    (Datatypes.length (stdin w') <= Datatypes.length (stdin w))%nat ->
    iter_outcome pedido w (Raise EOFError w')
| iter_break w' :
    menu w' = menu w -> heap w' = heap w ->
    (Datatypes.length (stdin w') < Datatypes.length (stdin w))%nat ->
    iter_outcome pedido w (Return (Break pedido) w')
| iter_reject w' :
    menu w' = menu w -> heap w' = heap w ->
    (Datatypes.length (stdin w') < Datatypes.length (stdin w))%nat ->
    iter_outcome pedido w (Return (Continue pedido) w')
| iter_add w' nome l q :
    dict_get nome (produtos (menu w)) = Some l ->
    0 < q <= Produto.estoque (deref (heap w) l) ->
    menu w' = menu w -> heap w' = debitar l q (heap w) ->
    (Datatypes.length (stdin w') < Datatypes.length (stdin w))%nat ->
    iter_outcome pedido w
      (Return (Continue (Pedido.mk (Pedido.cliente pedido)
                                   (Pedido.itens pedido ++ [ItemPedido.mk l q]))) w').

(** [post r Q E]: the computation ended, normally in a state that satisfies
    [Q] with its value or by an exception in a state that satisfies [E]. *)
Definition post {A} (r : Result A) (Q : A -> World -> Prop) (E : World -> Prop) : Prop :=
  match r with
  | Return a w => Q a w
  | Raise _ w => E w
  | OutOfFuel => False
  end.

(** The invariant, with at most [n] lines left on stdin. *)
Definition K (n : nat) (w : World) : Prop :=
  Inv w /\ (Datatypes.length (stdin w) <= n)%nat.

(** ** The listing *)

Definition valor {A} (d : A) (r : exn + A) : A :=
  match r with inr a => a | inl _ => d end.

Definition relatorio_item (h : Heap) (item : ItemPedido.t) : list Output :=
  [OutItem (Produto.nome (deref h (ItemPedido.produto item)))
           (ItemPedido.quantidade item)
           (valor (DFinite false 0 0) (ItemPedido.calcular_total h item))].

(** What [listar_pedidos] prints for one order. *)
Definition relatorio_pedido (h : Heap) (entry : nat * Pedido.t) : list Output :=
  OutPedido (fst entry) (Pessoa.nome (Cliente.pessoa (Pedido.cliente (snd entry))))
  :: flat_map (relatorio_item h) (Pedido.itens (snd entry))
  ++ [OutTotal (valor (NInt 0) (Pedido.calcular_total h (snd entry)))].

Definition relatorio (h : Heap) (ps : list Pedido.t) : list Output :=
  flat_map (relatorio_pedido h) (enumerate1 ps).

(** ** Sequences of operations *)

(** What can be done to a [Menu] from outside: its four methods, and the
    user typing lines that a later call will read. *)
Inductive Op :=
| CadastrarCliente (nome cpf email : string)
| CadastrarProduto (nome : string) (preco : Decimal) (estoque : Z)
| CriarPedido (cpf : string)
| ListarPedidos
| Digitar (linhas : list string).

Definition exec (op : Op) : M unit :=
  match op with
  | CadastrarCliente nome cpf email => cadastrar_cliente nome cpf email
  | CadastrarProduto nome preco estoque => cadastrar_produto nome preco estoque
  | CriarPedido cpf => criar_pedido cpf
  | ListarPedidos => listar_pedidos
  | Digitar linhas => modify (fun w => set_stdin (stdin w ++ linhas) w)
  end.

(** The states the program can be in: after any sequence of operations,
    whether they returned or raised, between two passes of the order loop,
    and after a run of the menu. *)
Inductive reachable : World -> Prop :=
| reach_init ins : reachable (Menu_init ins)
| reach_exec op w w' :
    reachable w -> final (exec op w) = Some w' -> reachable w'
| reach_iter pedido w w' :
    reachable w -> final (criar_pedido_iter pedido w) = Some w' -> reachable w'
| reach_menu w w' :
    reachable w -> final (exibir_menu w) = Some w' -> reachable w'.

(** Example data: the state after ten books at 19.90 were registered. *)
Definition w_registrado : World :=
  mkWorld (mkMenu [] [("Book"%string, 0%nat)] [])
          [Produto.mk "Book" (DFinite false 1990 (-2)) 10] 0 []
          [OutProdutoCadastrado (Produto.mk "Book" (DFinite false 1990 (-2)) 10)].

(** The order a call of [criar_pedido] finalizes, if any: the customer is
    registered, the loop was ended by the sentinel with this order in hand,
    and its total was computed.  A call that ends otherwise (unknown
    customer, stdin exhausted, total that cannot be computed) leaves its
    order unfinished. *)
Definition finalizado (cpf : string) (w : World) : list Pedido.t :=
  match dict_get cpf (clientes (menu w)) with
  | None => []
  | Some c =>
      match criar_pedido_loop (S (Datatypes.length (stdin w))) (Pedido.init c) w with
      | Return pedido w1 =>
          match Pedido.calcular_total (heap w1) pedido with
          | inr _ => [pedido]
          | inl _ => []
          end
      | _ => []
      end
  end.

Definition finalizado_por (op : Op) (w : World) : list Pedido.t :=
  match op with
  | CriarPedido cpf => finalizado cpf w
  | _ => []
  end.

(** The state after a sequence of operations. *)
Fixpoint run (ops : list Op) (w : World) : World :=
  match ops with
  | [] => w
  | op :: rest =>
      match final (exec op w) with
      | Some w' => run rest w'
      | None => w
      end
  end.

(** The orders finalized along a sequence of operations, oldest first. *)
Fixpoint finalizados (ops : list Op) (w : World) : list Pedido.t :=
  match ops with
  | [] => []
  | op :: rest =>
      match final (exec op w) with
      | Some w' => finalizado_por op w ++ finalizados rest w'
      | None => []
      end
  end.

(** ** Stock and the lines of an order *)

(** The units of the product at [l] that the lines take. *)
Fixpoint vendido (l : loc) (itens : list ItemPedido.t) : Z :=
  match itens with
  | [] => 0
  | item :: rest =>
      (if Nat.eqb (ItemPedido.produto item) l then ItemPedido.quantidade item else 0)
      + vendido l rest
  end.


(** Example data: a customer, ten books, and the lines of an order typed. *)
Definition ops_loja_aberta : list Op :=
  [CadastrarCliente "Ana" "000" "ana@example.org";
   CadastrarProduto "Book" (DFinite false 1990 (-2)) 10;
   Digitar ["Book"; "3"; "fim"]%string].


(** Example data: a customer, ten books, and an order of three of them. *)
Definition ops_um_pedido : list Op :=
  [CadastrarCliente "Ana" "000" "ana@example.org";
   CadastrarProduto "Book" (DFinite false 1990 (-2)) 10;
   Digitar ["Book"; "3"; "fim"]%string;
   CriarPedido "000"].

(** * Properties *)

(** ** dict *)

Lemma dict_get_set_eq {V} (k : string) (v : V) (d : dict V) :
  dict_get k (dict_set k v d) = Some v.
Proof.
  induction d as [|[k' v'] d IH]; simpl.
  - now rewrite String.eqb_refl.
  - destruct (String.eqb k k') eqn:E; simpl; rewrite ?String.eqb_refl, ?E; auto.
Qed.

Lemma dict_get_set_ne {V} (k k' : string) (v : V) (d : dict V) :
  k <> k' -> dict_get k' (dict_set k v d) = dict_get k' d.
Proof.
  intros Hne. induction d as [|[k0 v0] d IH]; simpl.
  - destruct (String.eqb k' k) eqn:E; auto.
    apply String.eqb_eq in E. congruence.
  - destruct (String.eqb k k0) eqn:E; simpl.
    + apply String.eqb_eq in E. subst k0.
      destruct (String.eqb k' k) eqn:E'; auto.
      apply String.eqb_eq in E'. congruence.
    + now rewrite IH.
Qed.

(** ** Unfolding the computations *)

Arguments py_int : simpl never.
Arguments py_Decimal : simpl never.
Arguments lower : simpl never.
Arguments Dfix : simpl never.
Arguments Dmul : simpl never.
Arguments Dadd : simpl never.
Arguments deref : simpl never.
Arguments debitar : simpl never.

Ltac munfold :=
  unfold mbind, M_bind, mret, M_ret, print, modify, gets, lift, raise, input,
    uuid4, alloc, enough_fuel, try_except_ValueError in *.

(** ** The model of [decimal], [int] and [str.lower] on values computed by CPython *)

Example Dmul_exact_example :
  Dmul (DFinite false 1990 (-2)) (Decimal_of_int 3) = inr (DFinite false 5970 (-2)).
Proof. reflexivity. Qed.

Example Dmul_rounds_half_even :
  Dmul (DFinite false 10000000000000000000000000005 0) (Decimal_of_int 1)
    = inr (DFinite false 1000000000000000000000000000 1) /\
  Dmul (DFinite false 10000000000000000000000000015 0) (Decimal_of_int 1)
    = inr (DFinite false 1000000000000000000000000002 1).
Proof. split; reflexivity. Qed.

Example Dmul_overflow :
  Dmul (DFinite false 9 999999) (Decimal_of_int 2) = inl Overflow.
Proof. reflexivity. Qed.

Example Dadd_from_int_zero :
  Nadd (NInt 0) (DFinite false 5 3) = inr (NDec (DFinite false 5000 0)).
Proof. reflexivity. Qed.

Example Dadd_rounds :
  Dadd (DFinite false 1000000000000000000000000000 1) (DFinite false 6 0)
    = inr (DFinite false 1000000000000000000000000001 1).
Proof. reflexivity. Qed.

Example Dlt_zero_examples :
  Dlt_zero (DFinite true 0 0) = inr false /\
  Dlt_zero (DFinite true 1 (-2)) = inr true /\
  Dlt_zero (DInfinity false) = inr false /\
  Dlt_zero (DNaN false false 0) = inl InvalidOperation.
Proof. repeat split. Qed.

Example py_int_examples :
  py_int " 12 " = inr 12 /\ py_int "-3" = inr (-3) /\ py_int "1_000" = inr 1000 /\
  py_int "dez" = inl ValueError /\ py_int "" = inl ValueError /\
  py_int "1.5" = inl ValueError.
Proof. repeat split. Qed.

Example py_Decimal_examples :
  py_Decimal "19.90" = inr (DFinite false 1990 (-2)) /\
  py_Decimal "-5" = inr (DFinite true 5 0) /\
  py_Decimal "1E+28" = inr (DFinite false 1 28) /\
  py_Decimal "Infinity" = inr (DInfinity false) /\
  py_Decimal "nan" = inr (DNaN false false 0) /\
  py_Decimal "abc" = inl InvalidOperation.
Proof. repeat split. Qed.

Example lower_examples :
  lower "FIM" = "fim"%string /\ lower "Fim" = "fim"%string /\ lower "fim " <> "fim"%string.
Proof. repeat split. vm_compute. discriminate. Qed.

(** ** Registering a product *)


Lemma Produto_init_inv nome preco estoque p :
  Produto.init nome preco estoque = inr p ->
  p = Produto.mk nome preco estoque /\ Dnonneg preco /\ 0 <= estoque.
Proof.
  unfold Produto.init, Dnonneg.
  destruct (Dlt_zero preco) as [e|[|]]; try discriminate.
  destruct (Z.ltb_spec estoque 0); try discriminate.
  intros [= <-]. auto.
Qed.




(** ** Starting an order *)

Lemma criar_pedido_iter_eof pedido w :
  stdin w = [] ->
  criar_pedido_iter pedido w = Raise EOFError (put (vitrine w) w).
Proof.
  intros H. unfold criar_pedido_iter, vitrine. munfold. simpl. rewrite H.
  unfold put. simpl. now rewrite <- !app_assoc.
Qed.

Lemma criar_pedido_iter_fim pedido w nome rest :
  stdin w = nome :: rest -> lower nome = "fim"%string ->
  criar_pedido_iter pedido w = Return (Break pedido) (set_stdin rest (put (vitrine w) w)).
Proof.
  intros H Hf. unfold criar_pedido_iter, vitrine. munfold. simpl. rewrite H, Hf. simpl.
  unfold put, set_stdin. simpl. now rewrite <- !app_assoc.
Qed.

Lemma criar_pedido_iter_not_found pedido w nome rest :
  stdin w = nome :: rest -> lower nome <> "fim"%string ->
  dict_get nome (produtos (menu w)) = None ->
  criar_pedido_iter pedido w =
    Return (Continue pedido)
           (set_stdin rest (put (vitrine w ++ [OutProdutoNaoEncontrado]) w)).
Proof.
  intros H Hf Hd. apply String.eqb_neq in Hf.
  unfold criar_pedido_iter, vitrine. munfold. simpl. rewrite H, Hf. simpl. rewrite Hd.
  unfold put, set_stdin. simpl. now rewrite <- !app_assoc.
Qed.

Lemma py_int_error linha e : py_int linha = inl e -> e = ValueError.
Proof.
  unfold py_int. destruct (split_sign _) as [neg cs].
  destruct (int_digits 0 false cs); congruence.
Qed.

Section AddLine.
Variables (pedido : Pedido.t) (w : World) (nome linha : string) (rest : list string).
Variable l : loc.
Hypothesis Hin : stdin w = nome :: linha :: rest.
Hypothesis Hfim : lower nome <> "fim"%string.
Hypothesis Hget : dict_get nome (produtos (menu w)) = Some l.

Lemma criar_pedido_iter_invalid e :
  py_int linha = inl e ->
  criar_pedido_iter pedido w =
    Return (Continue pedido)
      (set_stdin rest (put (vitrine w ++ [OutPrompt PQuantidade; OutQuantidadeInvalida]) w)).
Proof.
  intros Hq. pose proof (py_int_error _ _ Hq) as ->.
  apply String.eqb_neq in Hfim.
  unfold criar_pedido_iter, vitrine. munfold. simpl. rewrite Hin, Hfim. simpl.
  rewrite Hget. simpl. rewrite Hq. simpl.
  unfold put, set_stdin. simpl. now rewrite <- !app_assoc.
Qed.

Lemma criar_pedido_iter_insufficient q :
  py_int linha = inr q -> Produto.estoque (deref (heap w) l) < q ->
  criar_pedido_iter pedido w =
    Return (Continue pedido)
      (set_stdin rest (put (vitrine w ++ [OutPrompt PQuantidade; OutEstoqueInsuficiente]) w)).
Proof.
  intros Hq Hlt. apply String.eqb_neq in Hfim. apply Z.ltb_lt in Hlt.
  unfold criar_pedido_iter, vitrine. munfold. simpl. rewrite Hin, Hfim. simpl.
  rewrite Hget. simpl. rewrite Hq. simpl. rewrite Hlt.
  unfold put, set_stdin. simpl. now rewrite <- !app_assoc.
Qed.

Lemma criar_pedido_iter_nonpositive q :
  py_int linha = inr q -> q <= Produto.estoque (deref (heap w) l) -> q <= 0 ->
  criar_pedido_iter pedido w =
    Return (Continue pedido)
      (set_stdin rest (put (vitrine w ++ [OutPrompt PQuantidade; OutQuantidadeInvalida]) w)).
Proof.
  intros Hq Hle Hnp. apply String.eqb_neq in Hfim.
  apply Z.ltb_ge in Hle. apply Z.leb_le in Hnp.
  unfold criar_pedido_iter, vitrine. munfold. simpl. rewrite Hin, Hfim. simpl.
  rewrite Hget. simpl. rewrite Hq. simpl. rewrite Hle.
  unfold Pedido.adicionar_item, ItemPedido.init. rewrite Hnp. simpl.
  unfold put, set_stdin. simpl. now rewrite <- !app_assoc.
Qed.

Lemma criar_pedido_iter_added q :
  py_int linha = inr q -> 0 < q <= Produto.estoque (deref (heap w) l) ->
  criar_pedido_iter pedido w =
    Return (Continue (Pedido.mk (Pedido.cliente pedido)
                                (Pedido.itens pedido ++ [ItemPedido.mk l q])))
      (set_heap (debitar l q)
         (set_stdin rest (put (vitrine w ++ [OutPrompt PQuantidade]) w))).
Proof.
  intros Hq [Hpos Hle]. apply String.eqb_neq in Hfim.
  apply Z.ltb_ge in Hle. apply Z.leb_gt in Hpos.
  unfold criar_pedido_iter, vitrine. munfold. simpl. rewrite Hin, Hfim. simpl.
  rewrite Hget. simpl. rewrite Hq. simpl. rewrite Hle.
  unfold Pedido.adicionar_item, ItemPedido.init. rewrite Hpos. simpl.
  unfold put, set_stdin, set_heap. simpl. now rewrite <- !app_assoc.
Qed.

End AddLine.

(** ** Decimal arithmetic that needs no rounding *)

Lemma ndigits_aux_le (fuel : nat) : forall (n : N) (k : nat),
  (1 <= k)%nat -> (n < 10 ^ N.of_nat k)%N -> ndigits_aux fuel n <= Z.of_nat k.
Proof.
  induction fuel as [|fuel IH]; intros n k Hk Hn; simpl; [lia|].
  destruct (N.ltb_spec n 10); [lia|].
  destruct k as [|[|k]]; [lia| |].
  - change (10 ^ N.of_nat 1)%N with 10%N in Hn. lia.
  - assert (ndigits_aux fuel (n / 10) <= Z.of_nat (S k)); [|lia].
    apply IH; [lia|].
    replace (N.of_nat (S (S k))) with (N.succ (N.of_nat (S k))) in Hn by lia.
    rewrite N.pow_succ_r' in Hn.
    apply N.Div0.div_lt_upper_bound. lia.
Qed.

Lemma ndigits_le_prec (n : N) : (n < pow10 prec)%N -> ndigits n <= prec.
Proof.
  intros H. unfold ndigits.
  change prec with (Z.of_nat 28).
  apply ndigits_aux_le; [lia|exact H].
Qed.

Lemma ndigits_pos (n : N) : 1 <= ndigits n.
Proof.
  unfold ndigits. generalize (N.to_nat (N.size n)). intros fuel. revert n.
  induction fuel as [|fuel IH]; intros n; simpl; [lia|].
  destruct (n <? 10)%N; [lia|]. specialize (IH (n / 10)%N). lia.
Qed.

(** A coefficient of at most 28 digits at an exponent the context can hold
    is left as it is. *)
Lemma Dfix_exact (s : bool) (c : N) (e : Z) :
  (c < pow10 prec)%N -> Etiny <= e <= Etop ->
  Dfix s c e = inr (DFinite s c e).
Proof.
  intros Hc He. unfold Dfix.
  destruct (N.eqb_spec c 0) as [->|Hnz].
  - f_equal. f_equal. unfold Etiny, Etop, Emax, Emin, prec in *. lia.
  - pose proof (ndigits_le_prec c Hc) as Hd.
    pose proof (ndigits_pos c) as Hp.
    destruct (Z.ltb_spec Etop (ndigits c + e - prec)); [lia|].
    destruct (Z.ltb_spec e (Z.max (ndigits c + e - prec) Etiny)); [lia|].
    reflexivity.
Qed.

Lemma Dmul_int_exact (s : bool) (c : N) (e q : Z) :
  0 < q -> (c * Z.to_N q < pow10 prec)%N -> Etiny <= e <= Etop ->
  Dmul (DFinite s c e) (Decimal_of_int q) = inr (DFinite s (c * Z.to_N q) e).
Proof.
  intros Hq Hc He. unfold Dmul, Decimal_of_int. simpl.
  destruct (Z.ltb_spec q 0); [lia|].
  rewrite xorb_false_r, Z.add_0_r.
  replace (Z.abs_N q) with (Z.to_N q) by lia.
  now apply Dfix_exact.
Qed.



(** ** The store *)

Lemma deref_lookup (h : Heap) (l : loc) (p : Produto.t) :
  h !! l = Some p -> deref h l = p.
Proof. unfold deref. now intros ->. Qed.

Lemma debitar_lookup (h : Heap) (l : loc) (p : Produto.t) (q : Z) :
  h !! l = Some p ->
  debitar l q h = <[l := Produto.set_estoque (Produto.estoque p - q) p]> h /\
  debitar l q h !! l = Some (Produto.set_estoque (Produto.estoque p - q) p) /\
  (forall l', l' <> l -> debitar l q h !! l' = h !! l').
Proof.
  intros H. unfold debitar. rewrite (deref_lookup _ _ _ H). split; [reflexivity|]. split.
  - apply list_lookup_insert_eq. now apply lookup_lt_Some in H.
  - intros l' Hne. apply list_lookup_insert_ne. congruence.
Qed.

(** ** Adding a line *)










(** ** The order loop *)

Lemma criar_pedido_loop_S (fuel : nat) (pedido : Pedido.t) (w : World) :
  criar_pedido_loop (S fuel) pedido w =
    match criar_pedido_iter pedido w with
    | Return (Break pedido') w' => Return pedido' w'
    | Return (Continue pedido') w' => criar_pedido_loop fuel pedido' w'
    | Raise e w' => Raise e w'
    | OutOfFuel => OutOfFuel
    end.
Proof.
  simpl. unfold mbind, M_bind.
  destruct (criar_pedido_iter pedido w) as [[p|p] w'|e w'|]; reflexivity.
Qed.

Lemma criar_pedido_found (cpf : string) (w : World) (c : Cliente.t) :
  dict_get cpf (clientes (menu w)) = Some c ->
  criar_pedido cpf w =
    match criar_pedido_loop (S (Datatypes.length (stdin w))) (Pedido.init c) w with
    | Return pedido w' => fechar_pedido pedido w'
    | Raise e w' => Raise e w'
    | OutOfFuel => OutOfFuel
    end.
Proof.
  intros H. unfold criar_pedido, fechar_pedido. munfold. rewrite H. reflexivity.
Qed.



(** ** The order total *)

(** *** Sums that need no rounding *)

Section OrderTotal.
Variable h : Heap.

Lemma pow10_pos (k : Z) : (0 < pow10 k)%N.
Proof. unfold pow10. apply N.neq_0_lt_0. apply N.pow_nonzero. discriminate. Qed.

Lemma pow10_add (a b : Z) : 0 <= a -> 0 <= b -> pow10 (a + b) = (pow10 a * pow10 b)%N.
Proof.
  intros Ha Hb. unfold pow10. rewrite Z2N.inj_add by assumption. apply N.pow_add_r.
Qed.

Lemma pow10_0 : pow10 0 = 1%N.
Proof. reflexivity. Qed.

Lemma min_exp_le (itens : list ItemPedido.t) : forall m, (min_exp h) m itens <= m.
Proof.
  induction itens as [|item rest IH]; intros m; simpl; [lia|].
  specialize (IH (Z.min m ((item_exp h) item))). lia.
Qed.

Lemma min_exp_lower (itens : list ItemPedido.t) : forall m lo,
  lo <= m -> Forall (linha_ok h) itens -> lo <= Etiny -> lo <= (min_exp h) m itens.
Proof.
  induction itens as [|item rest IH]; intros m lo Hm Hok Hlo; simpl; [lia|].
  inversion Hok as [|? ? (_ & He & _) Hrest]; subst.
  apply IH; [lia|assumption|assumption].
Qed.

Lemma min_exp_le_item (itens : list ItemPedido.t) : forall m item,
  In item itens -> (min_exp h) m itens <= (item_exp h) item.
Proof.
  induction itens as [|i rest IH]; intros m item Hin; simpl in *; [contradiction|].
  destruct Hin as [->|Hin].
  - pose proof (min_exp_le rest (Z.min m ((item_exp h) item))). lia.
  - now apply IH.
Qed.

(** The running total, once it has been through one decimal addition. *)
Lemma sum_totais_exact (itens : list ItemPedido.t) : forall (C : N) (m : Z),
  Forall (linha_ok h) itens ->
  Etiny <= m <= 0 ->
  let e0 := (min_exp h) m itens in
  (C * pow10 (m - e0) + (total_scaled h) e0 itens < pow10 prec)%N ->
  Pedido.sum_totais h (NDec (DFinite false C m)) itens =
    inr (NDec (DFinite false (C * pow10 (m - e0) + (total_scaled h) e0 itens) e0)).
Proof.
  induction itens as [|item rest IH]; intros C m Hok Hm e0 Hbound.
  - subst e0. simpl. rewrite Z.sub_diag, pow10_0. do 3 f_equal. lia.
  - inversion Hok as [|? ? Hitem Hrest]; subst.
    destruct Hitem as ((s & c & e & Hp & Hs) & He & Hq).
    assert (Hc : (item_coef h) item = c) by (unfold item_coef; now rewrite Hp).
    assert (Hee : (item_exp h) item = e) by (unfold item_exp; now rewrite Hp).
    rewrite Hee in He.
    set (q := Z.to_N (ItemPedido.quantidade item)) in *.
    set (m' := Z.min m e).
    assert (He0 : e0 = (min_exp h) m' rest) by (subst e0 m'; simpl; now rewrite Hee).
    assert (Hlo : Etiny <= e0).
    { subst e0. apply min_exp_lower; [lia|assumption|lia]. }
    assert (Hm'e0 : e0 <= m') by (rewrite He0; apply min_exp_le).
    assert (Hsc : (scaled h) e0 item = (c * q * pow10 (e - e0))%N).
    { unfold scaled. now rewrite Hc, Hee. }
    simpl in Hbound. fold e0 in Hbound. rewrite Hsc in Hbound.
    (* the two addends at the exponent of the sum *)
    assert (HC : (C * pow10 (m - e0) = C * pow10 (m - m') * pow10 (m' - e0))%N).
    { rewrite <- N.mul_assoc, <- pow10_add by lia. do 2 f_equal. lia. }
    assert (Hcq : (c * q * pow10 (e - e0) = c * q * pow10 (e - m') * pow10 (m' - e0))%N).
    { rewrite <- (N.mul_assoc (c * q)), <- pow10_add by lia. do 2 f_equal. lia. }
    pose proof (pow10_pos (m' - e0)) as Hp1.
    pose proof (pow10_pos (e - m')) as Hp2.
    pose proof (pow10_pos (e - e0)) as Hp3.
    set (S := (C * pow10 (m - m') + c * q * pow10 (e - m'))%N).
    assert (HS : (S * pow10 (m' - e0) = C * pow10 (m - e0) + c * q * pow10 (e - e0))%N).
    { subst S. rewrite HC, Hcq. lia. }
    assert (HSlt : (S < pow10 prec)%N) by nia.
    assert (Hcqlt : (c * q < pow10 prec)%N) by nia.
    (* the subtotal *)
    simpl. unfold ItemPedido.calcular_total. fold ((item_preco h) item). rewrite Hp.
    rewrite (Dmul_int_exact s c e (ItemPedido.quantidade item) Hq Hcqlt He).
    fold q.
    (* the addition *)
    assert (Hadd : Dadd (DFinite false C m) (DFinite s (c * q) e) = inr (DFinite false S m')).
    { unfold Dadd. simpl. fold m'.
      assert (Hsg : Z.of_N (C * pow10 (m - m')) + signed s (c * q * pow10 (e - m'))
                    = Z.of_N S).
      { subst S. destruct Hs as [->| ->]; unfold signed; cbv iota;
          [lia | rewrite !N.mul_0_l; destruct s; lia]. }
      rewrite Hsg.
      destruct (Z.eqb_spec (Z.of_N S) 0) as [Hz|Hnz].
      - assert (S = 0%N) as -> by lia.
        apply Dfix_exact; [apply pow10_pos|]. unfold Etop, Emax, prec in *. lia.
      - destruct (Z.ltb_spec (Z.of_N S) 0); [lia|].
        replace (Z.abs_N (Z.of_N S)) with S by lia. apply Dfix_exact; [assumption|].
        unfold Etop, Emax, prec in *. lia. }
    unfold Nadd. rewrite Hadd.
    rewrite (IH S m' Hrest); fold e0; rewrite <- ?He0.
    + do 3 f_equal. rewrite HS, Hsc. lia.
    + unfold Etop, Emax, prec in *. lia.
    + rewrite HS. lia.
Qed.

Lemma min_exp_perm (l l' : list ItemPedido.t) :
  Permutation l l' -> forall m, (min_exp h) m l = (min_exp h) m l'.
Proof.
  induction 1 as [|x l l' _ IH|x y l|l l' l'' _ IH1 _ IH2]; intros m; simpl.
  - reflexivity.
  - apply IH.
  - f_equal. lia.
  - now rewrite IH1.
Qed.

Lemma total_scaled_perm (e0 : Z) (l l' : list ItemPedido.t) :
  Permutation l l' -> (total_scaled h) e0 l = (total_scaled h) e0 l'.
Proof.
  induction 1 as [|x l l' _ IH|x y l|l l' l'' _ IH1 _ IH2]; simpl; lia.
Qed.

Lemma inject_pow10 (k : Z) :
  0 <= k -> (inject_Z (Z.of_N (pow10 k)) == Qpower (inject_Z 10) k)%Q.
Proof.
  intros Hk. unfold pow10. rewrite N2Z.inj_pow, Z2N.id by assumption.
  now apply Zpower_Qpower.
Qed.

Lemma scaled_value (e0 : Z) (item : ItemPedido.t) :
  (linha_ok h) item -> e0 <= (item_exp h) item ->
  (inject_Z (Z.of_N ((scaled h) e0 item)) * Qpower (inject_Z 10) e0 ==
   match Dvalue ((item_preco h) item) with Some v => v | None => 0 end
     * inject_Z (ItemPedido.quantidade item))%Q.
Proof.
  intros ((s & c & e & Hp & Hs) & He & Hq) Hle.
  unfold scaled, item_coef. unfold item_exp in *. rewrite Hp in *. simpl.
  rewrite !N2Z.inj_mul, !inject_Z_mult, inject_pow10 by lia.
  rewrite Z2N.id by lia.
  assert (Hsg : signed s c = Z.of_N c)
    by (unfold signed; destruct Hs as [->| ->]; [reflexivity | now destruct s]).
  rewrite Hsg.
  assert (Hpow : (Qpower (inject_Z 10) (e - e0) * Qpower (inject_Z 10) e0
                  == Qpower (inject_Z 10) e)%Q).
  { rewrite <- Qpower_plus by discriminate. now replace (e - e0 + e0) with e by lia. }
  rewrite <- Hpow. ring.
Qed.

Lemma total_scaled_value (e0 : Z) (itens : list ItemPedido.t) :
  Forall (linha_ok h) itens -> (forall item, In item itens -> e0 <= (item_exp h) item) ->
  (inject_Z (Z.of_N ((total_scaled h) e0 itens)) * Qpower (inject_Z 10) e0
   == (soma_exata h) itens)%Q.
Proof.
  induction itens as [|item rest IH]; intros Hok Hle; simpl.
  - ring.
  - inversion Hok as [|? ? Hitem Hrest]; subst.
    rewrite N2Z.inj_add, inject_Z_plus.
    rewrite <- IH by (auto; intros; apply Hle; now right).
    rewrite <- (scaled_value e0 item Hitem) by (apply Hle; now left).
    ring.
Qed.

End OrderTotal.

Lemma sum_totais_from_int0 (h : Heap) (itens : list ItemPedido.t) :
  itens <> [] ->
  Pedido.sum_totais h (NInt 0) itens = Pedido.sum_totais h (NDec (DFinite false 0 0)) itens.
Proof. destruct itens; [congruence|reflexivity]. Qed.

Lemma calcular_total_exact (h : Heap) (c : Cliente.t) (itens : list ItemPedido.t) :
  Forall (linha_ok h) itens ->
  (total_scaled h (min_exp h 0 itens) itens < pow10 prec)%N ->
  Pedido.calcular_total h (Pedido.mk c itens) =
    inr (match itens with
         | [] => NInt 0
         | _ => NDec (DFinite false (total_scaled h (min_exp h 0 itens) itens)
                              (min_exp h 0 itens))
         end).
Proof.
  intros Hok Hb. unfold Pedido.calcular_total. simpl.
  destruct itens as [|item rest]; [reflexivity|].
  rewrite sum_totais_from_int0 by discriminate.
  rewrite sum_totais_exact; try assumption.
  - now rewrite N.mul_0_l, N.add_0_l.
  - unfold Etiny, Emin, prec. lia.
Qed.

(** C7, as the code has it.  When every line has a finite, non-negative
    price at an exponent the context can hold and a positive quantity, and
    the exact sum of [price * quantity], written at the smallest exponent
    among 0 and the prices', has at most 28 digits, then [calcular_total]
    returns a total that denotes exactly the sum of [price * quantity] over
    the lines, and every permutation of the lines (for two lines: either
    order of adding them) gives the same total. *)
Theorem order_total_exact (h : Heap) (c : Cliente.t) (itens : list ItemPedido.t) :
  Forall (linha_ok h) itens ->
  (total_scaled h (min_exp h 0 itens) itens < pow10 prec)%N ->
  exists total v,
    Pedido.calcular_total h (Pedido.mk c itens) = inr total /\
    Nvalue total = Some v /\
    (v == soma_exata h itens)%Q /\
    forall itens', Permutation itens itens' ->
      Pedido.calcular_total h (Pedido.mk c itens') = inr total.
Proof.
  intros Hok Hb.
  pose proof (calcular_total_exact h c itens Hok Hb) as Ht.
  assert (Hperm : forall itens', Permutation itens itens' ->
            Pedido.calcular_total h (Pedido.mk c itens') =
            Pedido.calcular_total h (Pedido.mk c itens)).
  { intros itens' HP. rewrite Ht.
    rewrite (calcular_total_exact h c itens').
    - rewrite <- (min_exp_perm h itens itens' HP 0).
      rewrite <- (total_scaled_perm h _ itens itens' HP).
      destruct itens as [|i r].
      + apply Permutation_nil in HP. now subst.
      + destruct itens'; [|reflexivity].
        apply Permutation_sym, Permutation_nil in HP. discriminate.
    - eapply Permutation_Forall; eassumption.
    - rewrite <- (min_exp_perm h itens itens' HP 0).
      now rewrite <- (total_scaled_perm h _ itens itens' HP). }
  destruct itens as [|item rest].
  - exists (NInt 0), (inject_Z 0). split; [exact Ht|]. split; [reflexivity|].
    split; [reflexivity|]. intros itens' HP. rewrite (Hperm itens' HP). exact Ht.
  - eexists. eexists. split; [exact Ht|]. split; [reflexivity|]. split.
    + apply total_scaled_value; [assumption|].
      intros i Hi. now apply min_exp_le_item.
    + intros itens' HP. rewrite (Hperm itens' HP). exact Ht.
Qed.

(** Witness for [order_total_exact]: 3 x 19.90 + 2 x 1.5 = 62.70, in
    either order. *)
Lemma order_total_exact_witness :
  exists total v,
    Pedido.calcular_total h_loja (Pedido.mk ana [ItemPedido.mk 0 3; ItemPedido.mk 1 2]) = inr total /\
    total = NDec (DFinite false 6270 (-2)) /\
    Nvalue total = Some v /\
    (v == soma_exata h_loja [ItemPedido.mk 0 3; ItemPedido.mk 1 2])%Q /\
    Pedido.calcular_total h_loja (Pedido.mk ana [ItemPedido.mk 1 2; ItemPedido.mk 0 3]) = inr total.
Proof.
  destruct (order_total_exact h_loja ana [ItemPedido.mk 0 3; ItemPedido.mk 1 2])
    as (total & v & H1 & H2 & H3 & H4).
  - repeat constructor.
    + exists false, 1990%N, (-2). split; [reflexivity | now left].
    + vm_compute. discriminate.
    + vm_compute. discriminate.
    + exists false, 15%N, (-1). split; [reflexivity | now left].
    + vm_compute. discriminate.
    + vm_compute. discriminate.
  - vm_compute. reflexivity.
  - exists total, v. split; [exact H1|]. split.
    + assert (E : inr total = @inr exn Number (NDec (DFinite false 6270 (-2))))
        by (rewrite <- H1; vm_compute; reflexivity).
      now inversion E.
    + split; [exact H2|]. split; [exact H3|]. apply H4. apply perm_swap.
Defined.

(** C7 as stated fails.  With A at 1E+28 and B at 6: the orders (A,1),(B,1)
    and (B,1),(A,1) both total 1.000000000000000000000000001E+28, which is
    not 1E+28 + 6; and the orders (A,1),(B,1),(B,1) and (B,1),(B,1),(A,1),
    one a permutation of the other, total ...002E+28 and ...001E+28. *)
Lemma order_total_rounded :
  exists w t2 t3 t4 v,
    main sessao_grande = Return tt w /\
    map Pedido.itens (pedidos (menu w)) =
      [[ItemPedido.mk 0 1; ItemPedido.mk 1 1];
       [ItemPedido.mk 1 1; ItemPedido.mk 0 1];
       [ItemPedido.mk 0 1; ItemPedido.mk 1 1; ItemPedido.mk 1 1];
       [ItemPedido.mk 1 1; ItemPedido.mk 1 1; ItemPedido.mk 0 1]] /\
    totais (stdout w) = [t2; t2; t3; t4] /\
    Nvalue t2 = Some v /\
    ~ (v == soma_exata (heap w) [ItemPedido.mk 0 1; ItemPedido.mk 1 1])%Q /\
    Permutation [ItemPedido.mk 0 1; ItemPedido.mk 1 1; ItemPedido.mk 1 1]
                [ItemPedido.mk 1 1; ItemPedido.mk 1 1; ItemPedido.mk 0 1] /\
    t3 = NDec (DFinite false 1000000000000000000000000002 1) /\
    t4 = NDec (DFinite false 1000000000000000000000000001 1) /\
    t3 <> t4.
Proof.
  eexists. eexists. eexists. eexists. eexists.
  split; [vm_compute; reflexivity|].
  split; [reflexivity|].
  split; [vm_compute; reflexivity|].
  split; [reflexivity|].
  split; [vm_compute; discriminate|].
  split.
  { apply Permutation_sym.
    change [ItemPedido.mk 0 1; ItemPedido.mk 1 1; ItemPedido.mk 1 1]
      with ([ItemPedido.mk 0 1] ++ [ItemPedido.mk 1 1; ItemPedido.mk 1 1]).
    change [ItemPedido.mk 1 1; ItemPedido.mk 1 1; ItemPedido.mk 0 1]
      with ([ItemPedido.mk 1 1; ItemPedido.mk 1 1] ++ [ItemPedido.mk 0 1]).
    apply Permutation_app_comm. }
  split; [reflexivity|]. split; [reflexivity|]. discriminate.
Qed.

(** ** Invariants of the program state *)

Lemma heap_le_refl (h : Heap) : heap_le h h.
Proof. split; auto. Qed.

Lemma heap_le_trans (h1 h2 h3 : Heap) : heap_le h1 h2 -> heap_le h2 h3 -> heap_le h1 h3.
Proof.
  intros [L1 H1] [L2 H2]. split; [lia|].
  intros l Hl. destruct (H1 l Hl) as [A B]. destruct (H2 l) as [C D]; [lia|].
  split; congruence.
Qed.

Lemma heap_le_app (h : Heap) (p : Produto.t) : heap_le h (h ++ [p]).
Proof.
  split; [rewrite length_app; lia|].
  intros l Hl. unfold deref. now rewrite lookup_app_l by assumption.
Qed.

Lemma deref_debitar (h : Heap) (l l' : loc) (q : Z) :
  (l < Datatypes.length h)%nat ->
  deref (debitar l q h) l' =
    if Nat.eqb l' l then Produto.set_estoque (Produto.estoque (deref h l) - q) (deref h l)
    else deref h l'.
Proof.
  intros Hl. destruct (lookup_lt_is_Some_2 h l Hl) as [p Hp].
  destruct (debitar_lookup h l p q Hp) as (_ & Heq & Hne).
  rewrite (deref_lookup _ _ _ Hp).
  destruct (Nat.eqb_spec l' l) as [->|Hd].
  - now apply deref_lookup.
  - unfold deref. now rewrite Hne.
Qed.

Lemma debitar_length (h : Heap) (l : loc) (q : Z) :
  Datatypes.length (debitar l q h) = Datatypes.length h.
Proof. unfold debitar. apply length_insert. Qed.

Lemma heap_le_debitar (h : Heap) (l : loc) (q : Z) :
  (l < Datatypes.length h)%nat -> heap_le h (debitar l q h).
Proof.
  intros Hl. split; [rewrite debitar_length; lia|].
  intros l' Hl'. rewrite deref_debitar by assumption.
  destruct (Nat.eqb_spec l' l) as [->|]; auto.
Qed.

Lemma item_total_heap_le (h h' : Heap) (item : ItemPedido.t) :
  heap_le h h' -> item_ok h item ->
  ItemPedido.calcular_total h' item = ItemPedido.calcular_total h item /\ item_ok h' item.
Proof.
  intros [HL Hle] [Hl Hq]. unfold ItemPedido.calcular_total, item_ok.
  destruct (Hle _ Hl) as [-> _]. split; [reflexivity|]. split; [lia|assumption].
Qed.

Lemma sum_totais_heap_le (h h' : Heap) (itens : list ItemPedido.t) :
  heap_le h h' -> Forall (item_ok h) itens ->
  forall acc, Pedido.sum_totais h' acc itens = Pedido.sum_totais h acc itens.
Proof.
  intros Hle. induction 1 as [|item rest Hitem _ IH]; intros acc; simpl; [reflexivity|].
  destruct (item_total_heap_le h h' item Hle Hitem) as [-> _].
  destruct (ItemPedido.calcular_total h item); [reflexivity|].
  destruct (Nadd acc d); [reflexivity|apply IH].
Qed.

Lemma pedido_ok_heap_le (h h' : Heap) (pedido : Pedido.t) :
  heap_le h h' -> pedido_ok h pedido -> pedido_ok h' pedido.
Proof.
  intros Hle Hok. unfold pedido_ok in *. eapply Forall_impl; [exact Hok|].
  intros item Hi. now destruct (item_total_heap_le h h' item Hle Hi).
Qed.

Lemma registrado_heap_le (h h' : Heap) (pedido : Pedido.t) :
  heap_le h h' -> registrado h pedido -> registrado h' pedido.
Proof.
  intros Hle [Hok [t Ht]]. split; [now apply (pedido_ok_heap_le h)|].
  exists t. unfold Pedido.calcular_total in *.
  now rewrite (sum_totais_heap_le h h' _ Hle Hok).
Qed.

Lemma produto_ok_debitar (h : Heap) (l : loc) (q : Z) :
  Forall produto_ok h -> q <= Produto.estoque (deref h l) ->
  Forall produto_ok (debitar l q h).
Proof.
  intros Hh Hq. unfold debitar.
  destruct (h !! l) as [p|] eqn:Hp.
  - apply Forall_insert; [assumption|].
    rewrite (deref_lookup _ _ _ Hp) in *.
    pose proof (proj1 (Forall_lookup _ _) Hh l p Hp) as [Hpr Hst].
    split; simpl; [assumption|lia].
  - rewrite list_insert_ge; [assumption|]. now apply lookup_ge_None.
Qed.

(** Changing only the console, the input or the identifier counter. *)
Lemma Inv_same (w w' : World) :
  menu w' = menu w -> heap w' = heap w -> Inv w -> Inv w'.
Proof.
  intros Hm Hh [A B C]. split; rewrite ?Hm, ?Hh; assumption.
Qed.

Lemma Inv_heap_le (w w' : World) :
  menu w' = menu w -> heap_le (heap w) (heap w') -> Forall produto_ok (heap w') ->
  Inv w -> Inv w'.
Proof.
  intros Hm Hle Hh [A B C]. split; [assumption| |].
  - intros nome l Hl. rewrite Hm in Hl. apply B in Hl. destruct Hle. lia.
  - rewrite Hm. eapply Forall_impl; [exact C|].
    intros pedido. now apply registrado_heap_le.
Qed.

Lemma Inv_init (ins : list string) : Inv (Menu_init ins).
Proof. split; simpl; [constructor|discriminate|constructor]. Qed.

(** ** Every way a pass through the order loop can end *)

Lemma criar_pedido_iter_eof_quantidade pedido w nome l :
  stdin w = [nome] -> lower nome <> "fim"%string ->
  dict_get nome (produtos (menu w)) = Some l ->
  criar_pedido_iter pedido w =
    Raise EOFError (set_stdin [] (put (vitrine w ++ [OutPrompt PQuantidade]) w)).
Proof.
  intros Hin Hfim Hget. apply String.eqb_neq in Hfim.
  unfold criar_pedido_iter, vitrine. munfold. simpl. rewrite Hin, Hfim. simpl.
  rewrite Hget. simpl.
  unfold put, set_stdin. simpl. now rewrite <- !app_assoc.
Qed.

Lemma criar_pedido_iter_outcome (pedido : Pedido.t) (w : World) :
  iter_outcome pedido w (criar_pedido_iter pedido w).
Proof.
  destruct (stdin w) as [|nome rest] eqn:Hin.
  { rewrite (criar_pedido_iter_eof pedido w Hin). constructor; simpl; auto; rewrite Hin; simpl; lia. }
  destruct (String.eqb_spec (lower nome) "fim") as [Hf|Hf].
  { rewrite (criar_pedido_iter_fim pedido w nome rest Hin Hf).
    constructor; simpl; auto; rewrite Hin; simpl; lia. }
  destruct (dict_get nome (produtos (menu w))) as [l|] eqn:Hget.
  2:{ rewrite (criar_pedido_iter_not_found pedido w nome rest Hin Hf Hget).
      constructor; simpl; auto; rewrite Hin; simpl; lia. }
  destruct rest as [|linha rest].
  { rewrite (criar_pedido_iter_eof_quantidade pedido w nome l Hin Hf Hget).
    constructor; simpl; auto; lia. }
  destruct (py_int linha) as [e|q] eqn:Hq.
  { rewrite (criar_pedido_iter_invalid pedido w nome linha rest l Hin Hf Hget e Hq).
    constructor; simpl; auto; rewrite Hin; simpl; lia. }
  destruct (Z.lt_ge_cases (Produto.estoque (deref (heap w) l)) q) as [Hlt|Hge].
  { rewrite (criar_pedido_iter_insufficient pedido w nome linha rest l Hin Hf Hget q Hq Hlt).
    constructor; simpl; auto; rewrite Hin; simpl; lia. }
  destruct (Z.le_gt_cases q 0) as [Hnp|Hpos].
  { rewrite (criar_pedido_iter_nonpositive pedido w nome linha rest l Hin Hf Hget q Hq Hge Hnp).
    constructor; simpl; auto; rewrite Hin; simpl; lia. }
  rewrite (criar_pedido_iter_added pedido w nome linha rest l Hin Hf Hget q Hq (conj Hpos Hge)).
  apply (iter_add pedido w _ nome l q); simpl; auto; rewrite Hin; simpl; lia.
Qed.

(** A pass keeps the invariant, and the order in hand names live products. *)
Lemma iter_outcome_inv (pedido : Pedido.t) (w : World) (r : Result Control) :
  iter_outcome pedido w r -> Inv w -> pedido_ok (heap w) pedido ->
  match r with
  | Return (Break p) w' | Return (Continue p) w' =>
      Inv w' /\ pedido_ok (heap w') p /\ heap_le (heap w) (heap w')
  | Raise _ w' => Inv w' /\ heap_le (heap w) (heap w')
  | OutOfFuel => False
  end.
Proof.
  intros Ho HI Hp.
  destruct Ho as [w' Hm Hh _|w' Hm Hh _|w' Hm Hh _|w' nome l q Hget Hq Hm Hh _].
  - rewrite Hh. split; [now apply (Inv_same w)|apply heap_le_refl].
  - rewrite Hh. split; [now apply (Inv_same w)|]. split; [assumption|apply heap_le_refl].
  - rewrite Hh. split; [now apply (Inv_same w)|]. split; [assumption|apply heap_le_refl].
  - pose proof (inv_dict w HI nome l Hget) as Hl.
    assert (Hle : heap_le (heap w) (heap w')) by (rewrite Hh; now apply heap_le_debitar).
    split; [|split; [|assumption]].
    + apply (Inv_heap_le w); [assumption|assumption| |assumption].
      rewrite Hh. apply produto_ok_debitar; [apply (inv_heap w HI)|lia].
    + unfold pedido_ok. simpl. apply Forall_app. split.
      * apply (pedido_ok_heap_le (heap w)); assumption.
      * constructor; [|constructor]. split; simpl; [|lia].
        rewrite Hh, debitar_length. assumption.
Qed.

(** The loop never runs out of the fuel it is given, leaves the registry
    alone, and keeps the invariant. *)
Lemma criar_pedido_loop_post (fuel : nat) : forall (pedido : Pedido.t) (w : World),
  (Datatypes.length (stdin w) < fuel)%nat -> Inv w -> pedido_ok (heap w) pedido ->
  match criar_pedido_loop fuel pedido w with
  | Return p w' =>
      Inv w' /\ pedido_ok (heap w') p /\ menu w' = menu w /\
      heap_le (heap w) (heap w') /\
      (Datatypes.length (stdin w') < Datatypes.length (stdin w))%nat
  | Raise _ w' =>
      Inv w' /\ menu w' = menu w /\ heap_le (heap w) (heap w') /\
      (Datatypes.length (stdin w') <= Datatypes.length (stdin w))%nat
  | OutOfFuel => False
  end.
Proof.
  induction fuel as [|fuel IH]; intros pedido w Hfuel HI Hp; [lia|].
  rewrite criar_pedido_loop_S.
  pose proof (criar_pedido_iter_outcome pedido w) as Ho.
  pose proof (iter_outcome_inv pedido w _ Ho HI Hp) as Hinv.
  destruct Ho as [w' Hm Hh Hs|w' Hm Hh Hs|w' Hm Hh Hs|w' nome l q Hget Hq Hm Hh Hs].
  - destruct Hinv as [A B]. auto.
  - destruct Hinv as (A & B & C). auto 6.
  - destruct Hinv as (A & B & C).
    specialize (IH pedido w' ltac:(lia) A B).
    destruct (criar_pedido_loop fuel pedido w') as [p w''|e w''|]; [| |assumption].
    + destruct IH as (I1 & I2 & I3 & I4 & I5).
      split; [assumption|]. split; [assumption|]. split; [congruence|].
      split; [eapply heap_le_trans; eassumption|lia].
    + destruct IH as (I1 & I3 & I4 & I5).
      split; [assumption|]. split; [congruence|].
      split; [eapply heap_le_trans; eassumption|lia].
  - destruct Hinv as (A & B & C).
    match goal with |- context [criar_pedido_loop fuel ?p w'] =>
      specialize (IH p w' ltac:(lia) A B);
      destruct (criar_pedido_loop fuel p w') as [p' w''|e w''|]; [| |assumption]
    end.
    + destruct IH as (I1 & I2 & I3 & I4 & I5).
      split; [assumption|]. split; [assumption|]. split; [congruence|].
      split; [eapply heap_le_trans; eassumption|lia].
    + destruct IH as (I1 & I3 & I4 & I5).
      split; [assumption|]. split; [congruence|].
      split; [eapply heap_le_trans; eassumption|lia].
Qed.

(** The order in hand stays bound to the customer it was opened for. *)
Lemma criar_pedido_loop_cliente (fuel : nat) : forall (pedido pedido' : Pedido.t) (w w' : World),
  criar_pedido_loop fuel pedido w = Return pedido' w' ->
  Pedido.cliente pedido' = Pedido.cliente pedido.
Proof.
  induction fuel as [|fuel IH]; intros pedido pedido' w w' H; [discriminate|].
  rewrite criar_pedido_loop_S in H.
  destruct (criar_pedido_iter_outcome pedido w)
    as [w1 _ _ _|w1 _ _ _|w1 _ _ _|w1 nome l q _ _ _ _ _].
  - discriminate.
  - now inversion H.
  - now apply IH in H.
  - apply IH in H. exact H.
Qed.

(** C6. For a tax id that is not registered [criar_pedido] prints that the
    customer was not found and returns: nothing is read, and neither the
    registry (no order recorded) nor any product changes.  For a registered
    one the loop is entered with a new order that is bound to that customer
    and has no lines, and the order the loop ends with is still bound to
    that customer. *)
Theorem start_order_spec (cpf : string) (w : World) :
  (dict_get cpf (clientes (menu w)) = None ->
     criar_pedido cpf w = Return tt (put [OutClienteNaoEncontrado] w) /\
     menu (put [OutClienteNaoEncontrado] w) = menu w /\
     heap (put [OutClienteNaoEncontrado] w) = heap w /\
     stdin (put [OutClienteNaoEncontrado] w) = stdin w) /\
  (forall c, dict_get cpf (clientes (menu w)) = Some c ->
     Pedido.cliente (Pedido.init c) = c /\
     Pedido.itens (Pedido.init c) = [] /\
     criar_pedido cpf w =
       match criar_pedido_loop (S (Datatypes.length (stdin w))) (Pedido.init c) w with
       | Return pedido w' => fechar_pedido pedido w'
       | Raise e w' => Raise e w'
       | OutOfFuel => OutOfFuel
       end /\
     (forall pedido w',
        criar_pedido_loop (S (Datatypes.length (stdin w))) (Pedido.init c) w = Return pedido w' ->
        Pedido.cliente pedido = c)).
Proof.
  split.
  - intros H. repeat split. unfold criar_pedido. munfold. now rewrite H.
  - intros c H. split; [reflexivity|]. split; [reflexivity|].
    split; [now apply criar_pedido_found|].
    intros pedido w' Hl. now apply criar_pedido_loop_cliente in Hl.
Qed.

(** Witness for [start_order_spec]: "000" is registered, "111" is not. *)
Lemma start_order_spec_witness :
  criar_pedido "111" (w_ana []) = Return tt (put [OutClienteNaoEncontrado] (w_ana [])) /\
  Pedido.cliente (Pedido.init ana) = ana /\
  Pedido.itens (Pedido.init ana) = [] /\
  criar_pedido "000" (w_ana ["fim"%string]) =
    match criar_pedido_loop 2 (Pedido.init ana) (w_ana ["fim"%string]) with
    | Return pedido w' => fechar_pedido pedido w'
    | Raise e w' => Raise e w'
    | OutOfFuel => OutOfFuel
    end.
Proof.
  split.
  - apply (proj1 (start_order_spec "111" (w_ana []))). reflexivity.
  - destruct (proj2 (start_order_spec "000" (w_ana ["fim"%string])) ana) as (H1 & H2 & H3 & _).
    + reflexivity.
    + auto.
Defined.

(** ** Postconditions *)

Lemma post_bind {A B} (m : M A) (k : A -> M B) (w : World)
    (Q' : A -> World -> Prop) (Q : B -> World -> Prop) (E : World -> Prop) :
  post (m w) Q' E ->
  (forall a w', Q' a w' -> post (k a w') Q E) ->
  post (mbind k m w) Q E.
Proof.
  unfold mbind, M_bind. destruct (m w) as [a w'|e w'|]; simpl; auto.
Qed.

Lemma post_weaken {A} (r : Result A) (Q Q' : A -> World -> Prop) (E E' : World -> Prop) :
  post r Q E -> (forall a w, Q a w -> Q' a w) -> (forall w, E w -> E' w) -> post r Q' E'.
Proof. destruct r; simpl; auto. Qed.

Lemma K_same (n : nat) (w w' : World) :
  menu w' = menu w -> heap w' = heap w -> stdin w' = stdin w -> K n w -> K n w'.
Proof.
  intros Hm Hh Hs [HI Hn]. split; [now apply (Inv_same w)|now rewrite Hs].
Qed.

Lemma post_print (o : Output) (n : nat) (w : World) :
  K n w -> post (print o w) (fun _ => K n) Inv.
Proof. intros HK. simpl. now apply (K_same n w). Qed.

Lemma post_input (p : Prompt) (n : nat) (w : World) :
  K n w -> post (input p w) (fun _ w' => K (pred n) w' /\ (1 <= n)%nat) Inv.
Proof.
  intros [HI Hn]. unfold input. simpl.
  destruct (stdin w) as [|line rest] eqn:Hin; simpl.
  - now apply (Inv_same w).
  - simpl in Hn. split; [split|lia]; [now apply (Inv_same w)|simpl; lia].
Qed.

Lemma post_lift {A} (r : exn + A) (n : nat) (w : World) :
  K n w -> post (lift r w) (fun _ => K n) Inv.
Proof. intros HK. destruct r; simpl; [apply HK|exact HK]. Qed.

Lemma K_weaken (n n' : nat) (w : World) : (n <= n')%nat -> K n w -> K n' w.
Proof. intros Hn [HI Hl]. split; [assumption|lia]. Qed.

Lemma post_cadastrar_cliente (nome cpf email : string) (n : nat) (w : World) :
  K n w -> post (cadastrar_cliente nome cpf email w) (fun _ => K n) Inv.
Proof.
  intros [[A B C] Hn]. unfold cadastrar_cliente. munfold. simpl.
  split; [split|]; assumption.
Qed.

Lemma post_cadastrar_produto (nome : string) (preco : Decimal) (estoque : Z)
    (n : nat) (w : World) :
  K n w -> post (cadastrar_produto nome preco estoque w) (fun _ => K n) Inv.
Proof.
  intros [HI Hn]. unfold cadastrar_produto. munfold.
  destruct (Produto.init nome preco estoque) as [e|p] eqn:Hp; simpl; [assumption|].
  apply Produto_init_inv in Hp. destruct Hp as (-> & Hpr & Hst).
  split; [|assumption].
  destruct HI as [A B C]. split; simpl.
  - apply Forall_app. split; [assumption|]. constructor; [|constructor]. now split.
  - intros nome' l. rewrite length_app. simpl.
    destruct (String.eqb_spec nome nome') as [<-|Hne].
    + rewrite dict_get_set_eq. intros [= <-]. lia.
    + rewrite dict_get_set_ne by assumption. intros Hl. apply B in Hl. lia.
  - eapply Forall_impl; [exact C|]. intros pedido.
    apply registrado_heap_le, heap_le_app.
Qed.

Lemma post_fechar_pedido (pedido : Pedido.t) (n : nat) (w : World) :
  K n w -> pedido_ok (heap w) pedido ->
  post (fechar_pedido pedido w) (fun _ => K n) Inv.
Proof.
  intros [HI Hn] Hp. unfold fechar_pedido. munfold.
  destruct (Pedido.calcular_total (heap w) pedido) as [e|t] eqn:Ht; simpl; [assumption|].
  split; [|assumption].
  destruct HI as [A B C]. split; simpl; try assumption.
  apply Forall_app. split; [assumption|]. constructor; [|constructor].
  split; [assumption|eauto].
Qed.

Lemma post_criar_pedido (cpf : string) (n : nat) (w : World) :
  K n w -> post (criar_pedido cpf w) (fun _ => K n) Inv.
Proof.
  intros [HI Hn].
  destruct (dict_get cpf (clientes (menu w))) as [c|] eqn:Hc.
  - rewrite (criar_pedido_found cpf w c Hc).
    pose proof (criar_pedido_loop_post (S (Datatypes.length (stdin w))) (Pedido.init c) w
                  ltac:(lia) HI ltac:(constructor)) as Hl.
    destruct (criar_pedido_loop _ _ w) as [p w'|e w'|]; simpl; [| |assumption].
    + destruct Hl as (I1 & I2 & I3 & I4 & I5).
      apply post_fechar_pedido; [split; [assumption|lia]|assumption].
    + tauto.
  - unfold criar_pedido. munfold. rewrite Hc. simpl.
    split; [now apply (Inv_same w)|assumption].
Qed.

Lemma post_criar_pedido_iter (pedido : Pedido.t) (n : nat) (w : World) :
  K n w -> post (criar_pedido_iter pedido w) (fun _ => K n) Inv.
Proof.
  intros [HI Hn].
  destruct (criar_pedido_iter_outcome pedido w)
    as [w' Hm Hh Hs|w' Hm Hh Hs|w' Hm Hh Hs|w' nome l q Hget Hq Hm Hh Hs]; simpl.
  - now apply (Inv_same w).
  - split; [now apply (Inv_same w)|lia].
  - split; [now apply (Inv_same w)|lia].
  - split; [|lia].
    pose proof (inv_dict w HI nome l Hget) as Hl.
    apply (Inv_heap_le w); [assumption| | |assumption].
    + rewrite Hh. now apply heap_le_debitar.
    + rewrite Hh. apply produto_ok_debitar; [apply (inv_heap w HI)|lia].
Qed.

(** ** Listing the orders *)

Lemma put_nil (w : World) : put [] w = w.
Proof. destruct w. unfold put. simpl. now rewrite app_nil_r. Qed.

Lemma put_put (a b : list Output) (w : World) : put b (put a w) = put (a ++ b) w.
Proof. unfold put. simpl. now rewrite app_assoc. Qed.

Lemma for_each_put {A} (f : A -> M unit) (g : A -> list Output) (h : Heap) (l : list A) :
  (forall a w, In a l -> heap w = h -> f a w = Return tt (put (g a) w)) ->
  forall w, heap w = h -> for_each f l w = Return tt (put (flat_map g l) w).
Proof.
  induction l as [|a l IH]; intros Hf w Hw; simpl.
  - now rewrite put_nil.
  - unfold mbind, M_bind. rewrite (Hf a w) by (auto; now left).
    rewrite IH; [now rewrite put_put| |assumption].
    intros a' w' Hin. apply Hf. now right.
Qed.

Lemma sum_totais_items (h : Heap) (itens : list ItemPedido.t) : forall acc t,
  Pedido.sum_totais h acc itens = inr t ->
  Forall (fun item => exists d, ItemPedido.calcular_total h item = inr d) itens.
Proof.
  induction itens as [|item rest IH]; intros acc t Ht; [constructor|].
  simpl in Ht.
  destruct (ItemPedido.calcular_total h item) as [e|d] eqn:Hd; [discriminate|].
  destruct (Nadd acc d) as [e|acc']; [discriminate|].
  constructor; [eauto|]. eapply IH; eassumption.
Qed.

Lemma listar_item_ok (h : Heap) (item : ItemPedido.t) (w : World) :
  (exists d, ItemPedido.calcular_total h item = inr d) -> heap w = h ->
  listar_item item w = Return tt (put (relatorio_item h item) w).
Proof.
  intros [d Hd] Hw. unfold listar_item, relatorio_item. munfold. rewrite Hw, Hd. reflexivity.
Qed.

Lemma listar_pedido_ok (h : Heap) (entry : nat * Pedido.t) (w : World) :
  (exists t, Pedido.calcular_total h (snd entry) = inr t) -> heap w = h ->
  listar_pedido entry w = Return tt (put (relatorio_pedido h entry) w).
Proof.
  intros [t Ht] Hw. destruct entry as [idx pedido]. simpl in Ht.
  unfold listar_pedido, relatorio_pedido. munfold. simpl.
  rewrite (for_each_put listar_item (relatorio_item h) h).
  - simpl. rewrite Hw, Ht. simpl. rewrite !put_put. reflexivity.
  - intros item w' Hin Hw'. apply listar_item_ok; [|assumption].
    pose proof (sum_totais_items h _ _ _ Ht) as Hall.
    rewrite Forall_forall in Hall. apply Hall. now apply list_elem_of_In.
  - exact Hw.
Qed.

Lemma In_enumerate1 {A} (l : list A) (i : nat) (a : A) :
  In (i, a) (enumerate1 l) -> In a l.
Proof.
  unfold enumerate1. intros H. apply list_elem_of_In in H.
  apply elem_of_lookup_imap in H. destruct H as (j & y & [= _ <-] & Hy).
  apply list_elem_of_In. now apply list_elem_of_lookup_2 in Hy.
Qed.

(** Where every recorded order has a total, the listing prints them all,
    in the order of the list, and changes nothing else. *)
Lemma listar_pedidos_ok (w : World) :
  Forall (registrado (heap w)) (pedidos (menu w)) ->
  listar_pedidos w = Return tt (put (relatorio (heap w) (pedidos (menu w))) w).
Proof.
  intros Hall. unfold listar_pedidos, relatorio. munfold.
  apply (for_each_put listar_pedido (relatorio_pedido (heap w)) (heap w)); [|reflexivity].
  intros [i pedido] w' Hin Hw'. apply listar_pedido_ok; [|assumption].
  apply In_enumerate1 in Hin. rewrite Forall_forall in Hall.
  apply list_elem_of_In in Hin. now destruct (Hall _ Hin).
Qed.

Lemma post_listar_pedidos (n : nat) (w : World) :
  K n w -> post (listar_pedidos w) (fun _ => K n) Inv.
Proof.
  intros HK. rewrite listar_pedidos_ok by apply (inv_pedidos w (proj1 HK)).
  simpl. now apply (K_same n w).
Qed.

(** ** The menu loop *)

Ltac post_step :=
  cbv beta in *;
  match goal with
  | |- post (mbind _ (input _) _) _ _ =>
      eapply post_bind; [apply post_input; eassumption|]
  | |- post (mbind _ (print _) _) _ _ =>
      eapply post_bind; [apply post_print; eassumption|]
  | |- post (mbind _ (lift _) _) _ _ =>
      eapply post_bind; [apply post_lift; eassumption|]
  | |- post (mbind _ (cadastrar_cliente _ _ _) _) _ _ =>
      eapply post_bind; [apply post_cadastrar_cliente; eassumption|]
  | |- post (mbind _ (cadastrar_produto _ _ _) _) _ _ =>
      eapply post_bind; [apply post_cadastrar_produto; eassumption|]
  | |- post (mbind _ (criar_pedido _) _) _ _ =>
      eapply post_bind; [apply post_criar_pedido; eassumption|]
  | |- post (mbind _ listar_pedidos _) _ _ =>
      eapply post_bind; [apply post_listar_pedidos; eassumption|]
  end.

Lemma exibir_menu_loop_post (fuel : nat) : forall (n : nat) (w : World),
  (n < fuel)%nat -> K n w ->
  post (exibir_menu_loop fuel w) (fun _ => Inv) Inv.
Proof.
  induction fuel as [|fuel IH]; intros n w Hn HK; [lia|].
  simpl.
  post_step. intros ? w1 HK1.
  post_step. intros opcao w2 [HK2 Hpos].
  assert (Hrec : forall m w', K m w' -> (m <= pred n)%nat ->
                   post (exibir_menu_loop fuel w') (fun _ => Inv) Inv).
  { intros m w' Hw' Hm. apply (IH m); [lia|assumption]. }
  destruct (String.eqb opcao "1").
  { post_step. intros nome w3 [HK3 _].
    post_step. intros cpf w4 [HK4 _].
    post_step. intros email w5 [HK5 _].
    post_step. intros ? w6 HK6. cbv beta in *; eapply Hrec; [eassumption|lia]. }
  destruct (String.eqb opcao "2").
  { post_step. intros nome w3 [HK3 _].
    post_step. intros l1 w4 [HK4 _].
    post_step. intros preco w5 HK5.
    post_step. intros l2 w6 [HK6 _].
    post_step. intros estoque w7 HK7.
    post_step. intros ? w8 HK8. cbv beta in *; eapply Hrec; [eassumption|lia]. }
  destruct (String.eqb opcao "3").
  { post_step. intros cpf w3 [HK3 _].
    post_step. intros ? w4 HK4. cbv beta in *; eapply Hrec; [eassumption|lia]. }
  destruct (String.eqb opcao "4").
  { post_step. intros ? w3 HK3. cbv beta in *; eapply Hrec; [eassumption|lia]. }
  destruct (String.eqb opcao "0").
  { apply (post_weaken _ (fun _ => K (pred n)) _ Inv Inv);
      [now apply post_print| intros ? w' [HI _]; exact HI | auto]. }
  post_step. intros ? w3 HK3. cbv beta in *; eapply Hrec; [eassumption|lia].
Qed.

(** The program always ends (by option 0 or by an exception), whatever is
    typed, and the invariant holds in the state it ends in. *)
Lemma exibir_menu_post (w : World) :
  Inv w -> post (exibir_menu w) (fun _ => Inv) Inv.
Proof.
  intros HI. unfold exibir_menu, enough_fuel, gets, mbind, M_bind.
  apply (exibir_menu_loop_post _ (Datatypes.length (stdin w))); [lia|].
  split; [assumption|lia].
Qed.

(** ** Sequences of operations *)

Lemma post_final {A} (r : Result A) (Q : A -> World -> Prop) (E : World -> Prop) (w' : World) :
  post r Q E -> final r = Some w' -> (exists a, Q a w') \/ E w'.
Proof. destruct r; simpl; intros H [= <-]; eauto. Qed.

Lemma K_length (w : World) : Inv w -> K (Datatypes.length (stdin w)) w.
Proof. intros HI. split; [assumption|lia]. Qed.

Lemma exec_Inv (op : Op) (w w' : World) :
  Inv w -> final (exec op w) = Some w' -> Inv w'.
Proof.
  intros HI Hf. pose proof (K_length w HI) as HK.
  assert (Hp : post (exec op w) (fun _ => Inv) Inv).
  { destruct op; cbn [exec].
    - eapply post_weaken; [apply post_cadastrar_cliente; eassumption| |auto].
      now intros _ ? [? _].
    - eapply post_weaken; [apply post_cadastrar_produto; eassumption| |auto].
      now intros _ ? [? _].
    - eapply post_weaken; [apply post_criar_pedido; eassumption| |auto].
      now intros _ ? [? _].
    - eapply post_weaken; [apply post_listar_pedidos; eassumption| |auto].
      now intros _ ? [? _].
    - now apply (Inv_same w). }
  destruct (post_final _ _ _ _ Hp Hf) as [[_ H]|H]; exact H.
Qed.

Lemma reachable_Inv (w : World) : reachable w -> Inv w.
Proof.
  induction 1 as [ins|op w w' _ IH Hf|pedido w w' _ IH Hf|w w' _ IH Hf].
  - apply Inv_init.
  - eapply exec_Inv; eassumption.
  - pose proof (post_criar_pedido_iter pedido _ w (K_length w IH)) as Hp.
    destruct (post_final _ _ _ _ Hp Hf) as [[_ [H _]]|H]; exact H.
  - destruct (post_final _ _ _ _ (exibir_menu_post w IH) Hf) as [[_ H]|H]; exact H.
Qed.

(** C3. In every state the program can reach, each name of the registry
    leads to a product whose price and stock are at least 0, and so is every
    product object there is; whatever is typed at the next pass of the order
    loop, this still holds after it. *)
Theorem stock_and_price_never_negative (w : World) :
  reachable w ->
  (forall nome l, dict_get nome (produtos (menu w)) = Some l ->
     exists p, heap w !! l = Some p /\ Dnonneg (Produto.preco p) /\ 0 <= Produto.estoque p) /\
  Forall produto_ok (heap w) /\
  (forall pedido w', final (criar_pedido_iter pedido w) = Some w' ->
     forall p, In p (heap w') -> Dnonneg (Produto.preco p) /\ 0 <= Produto.estoque p).
Proof.
  intros Hr. pose proof (reachable_Inv w Hr) as HI.
  split; [|split].
  - intros nome l Hl. apply (inv_dict w HI) in Hl.
    destruct (lookup_lt_is_Some_2 _ _ Hl) as [p Hp]. exists p. split; [assumption|].
    exact (proj1 (Forall_lookup _ _) (inv_heap w HI) l p Hp).
  - apply (inv_heap w HI).
  - intros pedido w' Hf p Hin.
    pose proof (reachable_Inv w' (reach_iter pedido w w' Hr Hf)) as HI'.
    pose proof (inv_heap w' HI') as Hall. rewrite Forall_forall in Hall.
    apply Hall. now apply list_elem_of_In.
Qed.

(** Witness for [stock_and_price_never_negative]: the state after ten books
    at 19.90 were registered. *)
Lemma stock_and_price_never_negative_witness :
  reachable w_registrado /\
  exists p, heap w_registrado !! 0%nat = Some p /\
            Dnonneg (Produto.preco p) /\ 0 <= Produto.estoque p.
Proof.
  assert (Hr : reachable w_registrado).
  { apply (reach_exec (CadastrarProduto "Book" (DFinite false 1990 (-2)) 10) (Menu_init []));
      [apply reach_init|reflexivity]. }
  split; [exact Hr|].
  apply (proj1 (stock_and_price_never_negative w_registrado Hr) "Book"%string 0%nat).
  reflexivity.
Defined.

(** ** Which orders are recorded *)

Lemma criar_pedido_pedidos (cpf : string) (w : World) :
  Inv w ->
  exists w', final (criar_pedido cpf w) = Some w' /\
    pedidos (menu w') = pedidos (menu w) ++ finalizado cpf w.
Proof.
  intros HI. unfold finalizado.
  destruct (dict_get cpf (clientes (menu w))) as [c|] eqn:Hc.
  - rewrite (criar_pedido_found cpf w c Hc).
    pose proof (criar_pedido_loop_post (S (Datatypes.length (stdin w))) (Pedido.init c) w
                  ltac:(lia) HI ltac:(constructor)) as Hl.
    destruct (criar_pedido_loop _ _ w) as [p w1|e w1|]; [| |contradiction].
    + destruct Hl as (_ & _ & Hm & _).
      unfold fechar_pedido. munfold.
      destruct (Pedido.calcular_total (heap w1) p) as [e|t]; simpl.
      * eexists. split; [reflexivity|]. now rewrite Hm, app_nil_r.
      * eexists. split; [reflexivity|]. simpl. now rewrite Hm.
    + destruct Hl as (_ & Hm & _). eexists. split; [reflexivity|].
      now rewrite Hm, app_nil_r.
  - unfold criar_pedido. munfold. rewrite Hc. simpl.
    eexists. split; [reflexivity|]. simpl. now rewrite app_nil_r.
Qed.

Lemma exec_pedidos (op : Op) (w : World) :
  Inv w ->
  exists w', final (exec op w) = Some w' /\
    pedidos (menu w') = pedidos (menu w) ++ finalizado_por op w.
Proof.
  intros HI. destruct op as [nome cpf email|nome preco estoque|cpf| |linhas]; cbn [exec finalizado_por].
  - eexists. split; [reflexivity|]. simpl. now rewrite app_nil_r.
  - unfold cadastrar_produto. munfold.
    destruct (Produto.init nome preco estoque); simpl;
      (eexists; split; [reflexivity|]; simpl; now rewrite app_nil_r).
  - now apply criar_pedido_pedidos.
  - rewrite listar_pedidos_ok by apply (inv_pedidos w HI).
    eexists. split; [reflexivity|]. simpl. now rewrite app_nil_r.
  - eexists. split; [reflexivity|]. simpl. now rewrite app_nil_r.
Qed.

Lemma run_pedidos (ops : list Op) : forall w,
  Inv w ->
  Inv (run ops w) /\
  pedidos (menu (run ops w)) = pedidos (menu w) ++ finalizados ops w.
Proof.
  induction ops as [|op rest IH]; intros w HI; simpl.
  - split; [assumption|now rewrite app_nil_r].
  - destruct (exec_pedidos op w HI) as (w' & Hf & Hp). rewrite Hf.
    destruct (IH w' (exec_Inv op w w' HI Hf)) as [HI' Hp'].
    split; [assumption|]. now rewrite Hp', Hp, app_assoc.
Qed.


(** An order left unfinished by the end of input is not listed; the one
    closed before it is. *)
Example list_orders_abandoned :
  let ops := [CadastrarCliente "Ana" "000" "ana@example.org";
              CadastrarProduto "Book" (DFinite false 1990 (-2)) 10;
              Digitar ["Book"; "3"; "fim"; "Book"; "2"]%string;
              CriarPedido "000"; CriarPedido "000"; ListarPedidos] in
  let w := run ops (Menu_init []) in
  map Pedido.itens (pedidos (menu w)) = [[ItemPedido.mk 0 3]] /\
  Produto.estoque (deref (heap w) 0) = 5 /\
  omap (fun o => match o with OutPedido i _ => Some i | _ => None end) (stdout w) = [1%nat].
Proof. vm_compute. auto. Qed.

(** ** The menu, option 2 *)

(** C4 does not hold of the code.  Option 2 has no [try]: a negative price,
    a price that is not a number, a negative stock and a stock that is not a
    number each end the program with an uncaught exception, the "0" typed
    next left unread and nothing registered.  The same words typed at the
    quantity prompt of option 3 are caught and reported there. *)
Theorem menu_option_2_uncaught :
  (exists w, main ["2"; "Livro"; "-5"; "3"; "0"]%string = Raise ValueError w /\
             produtos (menu w) = [] /\ stdin w = ["0"%string]) /\
  (exists w, main ["2"; "Livro"; "abc"; "3"; "0"]%string = Raise InvalidOperation w /\
             produtos (menu w) = [] /\ stdin w = ["3"; "0"]%string) /\
  (exists w, main ["2"; "Livro"; "19.90"; "-3"; "0"]%string = Raise ValueError w /\
             produtos (menu w) = [] /\ stdin w = ["0"%string]) /\
  (exists w, main ["2"; "Livro"; "19.90"; "dez"; "0"]%string = Raise ValueError w /\
             produtos (menu w) = [] /\ stdin w = ["0"%string]) /\
  (exists w, main ["1"; "Ana"; "000"; "ana@example.org"; "2"; "Livro"; "19.90"; "10";
                   "3"; "000"; "Livro"; "dez"; "Livro"; "-3"; "fim"; "0"]%string
               = Return tt w /\
             last (stdout w) = Some OutSaindo /\
             omap (fun o => match o with OutQuantidadeInvalida => Some o | _ => None end)
                  (stdout w) = [OutQuantidadeInvalida; OutQuantidadeInvalida]).
Proof.
  repeat split; eexists; (split; [vm_compute; reflexivity|]); vm_compute; auto.
Qed.

(** * Further properties of the code *)

(** ** Registering customers and products again *)

Lemma dict_set_keys_present {V} (k : string) (v : V) (d : dict V) :
  is_Some (dict_get k d) -> map fst (dict_set k v d) = map fst d.
Proof.
  induction d as [|[k' v'] d IH]; simpl; intros [x Hx]; [discriminate|].
  destruct (String.eqb_spec k k') as [->|Hne]; simpl; [reflexivity|].
  f_equal. apply IH. eauto.
Qed.

Lemma dict_set_keys_absent {V} (k : string) (v : V) (d : dict V) :
  dict_get k d = None -> map fst (dict_set k v d) = map fst d ++ [k].
Proof.
  induction d as [|[k' v'] d IH]; simpl; intros H; [reflexivity|].
  destruct (String.eqb_spec k k') as [->|Hne]; [discriminate|].
  simpl. f_equal. now apply IH.
Qed.

(** [cadastrar_cliente] never fails.  The tax id then leads to the customer
    just built; a tax id that was registered keeps its place among the keys
    and loses its earlier customer, a new one goes last; every other tax
    id, the products, the orders and the store are what they were. *)
Theorem cadastrar_cliente_spec (nome cpf email : string) (w : World) :
  exists w',
    cadastrar_cliente nome cpf email w = Return tt w' /\
    dict_get cpf (clientes (menu w'))
      = Some (Cliente.mk (Pessoa.mk nome cpf email) (uuids w)) /\
    (forall cpf', cpf' <> cpf ->
       dict_get cpf' (clientes (menu w')) = dict_get cpf' (clientes (menu w))) /\
    map fst (clientes (menu w')) =
      match dict_get cpf (clientes (menu w)) with
      | Some _ => map fst (clientes (menu w))
      | None => map fst (clientes (menu w)) ++ [cpf]
      end /\
    produtos (menu w') = produtos (menu w) /\
    pedidos (menu w') = pedidos (menu w) /\
    heap w' = heap w /\
    stdin w' = stdin w /\
    stdout w' = stdout w ++
      [OutClienteCadastrado (Cliente.mk (Pessoa.mk nome cpf email) (uuids w))].
Proof.
  unfold cadastrar_cliente. munfold. simpl.
  eexists. split; [reflexivity|]. simpl.
  split; [apply dict_get_set_eq|].
  split; [intros cpf' Hne; apply dict_get_set_ne; congruence|].
  split; [|repeat split].
  destruct (dict_get cpf (clientes (menu w))) eqn:H.
  - apply dict_set_keys_present. rewrite H. eauto.
  - now apply dict_set_keys_absent.
Qed.



(** ** Recorded orders *)

Lemma run_reachable (ops : list Op) : forall w, reachable w -> reachable (run ops w).
Proof.
  induction ops as [|op rest IH]; intros w Hr; simpl; [assumption|].
  destruct (final (exec op w)) as [w'|] eqn:Hf; [|assumption].
  apply IH. now apply (reach_exec op w).
Qed.

Lemma exec_heap_le (op : Op) (w w' : World) :
  Inv w -> final (exec op w) = Some w' -> heap_le (heap w) (heap w').
Proof.
  intros HI. destruct op as [nome cpf email|nome preco estoque|cpf| |linhas]; cbn [exec].
  - intros [= <-]. apply heap_le_refl.
  - unfold cadastrar_produto. munfold.
    destruct (Produto.init nome preco estoque); simpl; intros [= <-]; simpl.
    + apply heap_le_refl.
    + apply heap_le_app.
  - destruct (dict_get cpf (clientes (menu w))) as [c|] eqn:Hc.
    + rewrite (criar_pedido_found cpf w c Hc).
      pose proof (criar_pedido_loop_post (S (Datatypes.length (stdin w))) (Pedido.init c) w
                    ltac:(lia) HI ltac:(constructor)) as Hl.
      destruct (criar_pedido_loop _ _ w) as [p w1|e w1|]; [| |contradiction].
      * destruct Hl as (_ & _ & _ & Hle & _).
        unfold fechar_pedido. munfold.
        destruct (Pedido.calcular_total (heap w1) p); simpl; intros [= <-]; exact Hle.
      * destruct Hl as (_ & _ & Hle & _). simpl. intros [= <-]. exact Hle.
    + unfold criar_pedido. munfold. rewrite Hc. simpl. intros [= <-]. apply heap_le_refl.
  - rewrite listar_pedidos_ok by apply (inv_pedidos w HI).
    simpl. intros [= <-]. apply heap_le_refl.
  - simpl. intros [= <-]. apply heap_le_refl.
Qed.

Lemma run_heap_le (ops : list Op) : forall w,
  Inv w -> heap_le (heap w) (heap (run ops w)).
Proof.
  induction ops as [|op rest IH]; intros w HI; simpl; [apply heap_le_refl|].
  destruct (final (exec op w)) as [w'|] eqn:Hf; [|apply heap_le_refl].
  eapply heap_le_trans; [eapply exec_heap_le; eassumption|].
  apply IH. eapply exec_Inv; eassumption.
Qed.

(** In every state the program can reach, each line of each recorded order
    has a positive quantity and refers to a product that is in the store,
    its subtotal can be computed, and so can the total of the order. *)
Theorem recorded_lines_valid (w : World) (pedido : Pedido.t) (item : ItemPedido.t) :
  reachable w ->
  In pedido (pedidos (menu w)) ->
  In item (Pedido.itens pedido) ->
  0 < ItemPedido.quantidade item /\
  (exists p, heap w !! ItemPedido.produto item = Some p) /\
  (exists d, ItemPedido.calcular_total (heap w) item = inr d) /\
  (exists t, Pedido.calcular_total (heap w) pedido = inr t).
Proof.
  intros Hr Hp Hi. pose proof (reachable_Inv w Hr) as HI.
  pose proof (inv_pedidos w HI) as Hall. rewrite Forall_forall in Hall.
  destruct (Hall pedido) as [Hok [t Ht]]; [now apply list_elem_of_In|].
  unfold pedido_ok in Hok. rewrite Forall_forall in Hok.
  destruct (Hok item) as [Hl Hq]; [now apply list_elem_of_In|].
  split; [assumption|]. split; [now apply lookup_lt_is_Some_2|].
  split; [|eauto].
  pose proof (sum_totais_items _ _ _ _ Ht) as Hit. rewrite Forall_forall in Hit.
  apply Hit. now apply list_elem_of_In.
Qed.

Lemma ops_um_pedido_result :
  map Pedido.itens (pedidos (menu (run ops_um_pedido (Menu_init [])))) = [[ItemPedido.mk 0 3]].
Proof. reflexivity. Qed.

(** Witness for [recorded_lines_valid]: the order of three books. *)
Lemma recorded_lines_valid_witness :
  exists d, ItemPedido.calcular_total (heap (run ops_um_pedido (Menu_init [])))
              (ItemPedido.mk 0 3) = inr d.
Proof.
  destruct (recorded_lines_valid (run ops_um_pedido (Menu_init []))
              (Pedido.mk (Cliente.mk (Pessoa.mk "Ana" "000" "ana@example.org") 0)
                         [ItemPedido.mk 0 3])
              (ItemPedido.mk 0 3)) as (_ & _ & H & _).
  - apply run_reachable, reach_init.
  - vm_compute. left. reflexivity.
  - left. reflexivity.
  - exact H.
Defined.

(** Recorded orders are never touched again: after any further operations
    the order list starts with the orders it had, and each of them has the
    total it had, whatever was registered, sold or listed in between. *)
Theorem recorded_orders_immutable (ops : list Op) (w : World) :
  reachable w ->
  exists novos,
    pedidos (menu (run ops w)) = pedidos (menu w) ++ novos /\
    forall pedido, In pedido (pedidos (menu w)) ->
      Pedido.calcular_total (heap (run ops w)) pedido = Pedido.calcular_total (heap w) pedido /\
      forall item, In item (Pedido.itens pedido) ->
        ItemPedido.calcular_total (heap (run ops w)) item
          = ItemPedido.calcular_total (heap w) item.
Proof.
  intros Hr. pose proof (reachable_Inv w Hr) as HI.
  destruct (run_pedidos ops w HI) as [_ Hp].
  exists (finalizados ops w). split; [exact Hp|].
  intros pedido Hin.
  pose proof (run_heap_le ops w HI) as Hle.
  pose proof (inv_pedidos w HI) as Hall. rewrite Forall_forall in Hall.
  destruct (Hall pedido) as [Hok _]; [now apply list_elem_of_In|].
  split.
  - unfold Pedido.calcular_total. now apply sum_totais_heap_le.
  - intros item Hi. unfold pedido_ok in Hok. rewrite Forall_forall in Hok.
    apply item_total_heap_le; [assumption|]. apply Hok. now apply list_elem_of_In.
Qed.

(** Witness for [recorded_orders_immutable]: after the order of three books
    the books are registered again at 25.00; the order still totals 59.70. *)
Lemma recorded_orders_immutable_witness :
  exists novos,
    pedidos (menu (run [CadastrarProduto "Book" (DFinite false 2500 (-2)) 4]
                       (run ops_um_pedido (Menu_init []))))
      = pedidos (menu (run ops_um_pedido (Menu_init []))) ++ novos.
Proof.
  destruct (recorded_orders_immutable [CadastrarProduto "Book" (DFinite false 2500 (-2)) 4]
              (run ops_um_pedido (Menu_init []))) as (novos & H & _).
  - apply run_reachable, reach_init.
  - exists novos. exact H.
Defined.

(** ** Stock and orders *)

Lemma vendido_app (l : loc) (a b : list ItemPedido.t) :
  vendido l (a ++ b) = vendido l a + vendido l b.
Proof. induction a as [|x a IH]; simpl; [reflexivity|]. rewrite IH. lia. Qed.

Lemma vendido_nonneg (h : Heap) (l : loc) (itens : list ItemPedido.t) :
  Forall (item_ok h) itens -> 0 <= vendido l itens.
Proof.
  induction 1 as [|item rest [_ Hq] _ IH]; simpl; [lia|].
  destruct (Nat.eqb _ l); lia.
Qed.

(** What leaves the stock is in the lines of the order in hand. *)
Lemma criar_pedido_loop_stock (fuel : nat) : forall (pedido pedido' : Pedido.t) (w w' : World),
  Inv w ->
  criar_pedido_loop fuel pedido w = Return pedido' w' ->
  forall l, Produto.estoque (deref (heap w') l) + vendido l (Pedido.itens pedido')
            = Produto.estoque (deref (heap w) l) + vendido l (Pedido.itens pedido).
Proof.
  induction fuel as [|fuel IH]; intros pedido pedido' w w' HI H l; [discriminate|].
  rewrite criar_pedido_loop_S in H.
  pose proof (post_criar_pedido_iter pedido _ w (K_length w HI)) as Hpost.
  destruct (criar_pedido_iter_outcome pedido w)
    as [w1 Hm Hh _|w1 Hm Hh _|w1 Hm Hh _|w1 nome l0 q Hget Hq Hm Hh _].
  - discriminate.
  - inversion H; subst. now rewrite Hh.
  - destruct Hpost as [HI1 _]. rewrite (IH _ _ _ _ HI1 H l). now rewrite Hh.
  - destruct Hpost as [HI1 _]. rewrite (IH _ _ _ _ HI1 H l). simpl.
    pose proof (inv_dict w HI nome l0 Hget) as Hl0.
    rewrite Hh, deref_debitar by assumption. rewrite vendido_app. simpl.
    rewrite (Nat.eqb_sym l0 l).
    destruct (Nat.eqb_spec l l0) as [->|Hne]; simpl; lia.
Qed.

(** An order that is recorded accounts for the stock that is gone: for
    every product, the stock went down by just the units in the lines of the
    order, and these are never more than the stock there was. *)
Theorem order_accounts_for_stock (cpf : string) (c : Cliente.t) (w w' : World) :
  reachable w ->
  dict_get cpf (clientes (menu w)) = Some c ->
  criar_pedido cpf w = Return tt w' ->
  exists pedido,
    pedidos (menu w') = pedidos (menu w) ++ [pedido] /\
    Pedido.cliente pedido = c /\
    forall l,
      Produto.estoque (deref (heap w') l)
        = Produto.estoque (deref (heap w) l) - vendido l (Pedido.itens pedido) /\
      0 <= vendido l (Pedido.itens pedido) <= Produto.estoque (deref (heap w) l).
Proof.
  intros Hr Hc H. pose proof (reachable_Inv w Hr) as HI.
  pose proof (post_criar_pedido cpf _ w (K_length w HI)) as Hpost.
  rewrite H in Hpost. destruct Hpost as [HI' _].
  rewrite (criar_pedido_found cpf w c Hc) in H.
  pose proof (criar_pedido_loop_post (S (Datatypes.length (stdin w))) (Pedido.init c) w
                ltac:(lia) HI ltac:(constructor)) as Hl.
  destruct (criar_pedido_loop _ _ w) as [p w1|e w1|] eqn:Hloop; [|discriminate|contradiction].
  destruct Hl as (_ & Hok & Hm & _).
  pose proof (criar_pedido_loop_cliente _ _ _ _ _ Hloop) as Hcli.
  pose proof (criar_pedido_loop_stock _ _ _ _ _ HI Hloop) as Hst.
  unfold fechar_pedido in H. munfold.
  destruct (Pedido.calcular_total (heap w1) p) as [e|t]; simpl in H; [discriminate|].
  inversion H; subst w'. clear H.
  exists p. simpl. split; [now rewrite Hm|]. split; [exact Hcli|].
  intros l. specialize (Hst l). simpl in Hst.
  pose proof (vendido_nonneg (heap w1) l _ Hok) as Hnn.
  split; [lia|]. split; [lia|].
  assert (Hge : 0 <= Produto.estoque (deref (heap w1) l)).
  { unfold deref. destruct (heap w1 !! l) as [p0|] eqn:Hp0; simpl; [|lia].
    simpl in HI'. pose proof (inv_heap _ HI') as Hall. simpl in Hall.
    exact (proj2 (proj1 (Forall_lookup _ _) Hall l p0 Hp0)). }
  lia.
Qed.

(** Witness for [order_accounts_for_stock]: three books out of ten. *)
Lemma order_accounts_for_stock_witness :
  exists w' pedido,
    criar_pedido "000" (run ops_loja_aberta (Menu_init [])) = Return tt w' /\
    pedidos (menu w') = pedidos (menu (run ops_loja_aberta (Menu_init []))) ++ [pedido] /\
    Produto.estoque (deref (heap w') 0)
      = Produto.estoque (deref (heap (run ops_loja_aberta (Menu_init []))) 0)
        - vendido 0 (Pedido.itens pedido).
Proof.
  destruct (criar_pedido "000" (run ops_loja_aberta (Menu_init []))) as [[] w'|e w'|] eqn:H;
    [|vm_compute in H; discriminate|vm_compute in H; discriminate].
  destruct (order_accounts_for_stock "000"
              (Cliente.mk (Pessoa.mk "Ana" "000" "ana@example.org") 0)
              (run ops_loja_aberta (Menu_init [])) w') as (pedido & H1 & _ & H3).
  - apply run_reachable, reach_init.
  - reflexivity.
  - exact H.
  - exists w', pedido. split; [reflexivity|]. split; [exact H1|]. apply H3.
Defined.

(** ** An order that is not closed *)



(** ** The exceptions of [criar_pedido] *)








(** ** The menu *)

Lemma bind_Return {A B} (m : M A) (k : A -> M B) (w w' : World) (b : B) :
  mbind k m w = Return b w' ->
  exists a w1, m w = Return a w1 /\ k a w1 = Return b w'.
Proof.
  unfold mbind, M_bind. destruct (m w) as [a w1|e w1|]; try discriminate. eauto.
Qed.

Ltac peel H :=
  let a := fresh "a" in let w1 := fresh "w" in let Hm := fresh "Hm" in
  apply bind_Return in H; destruct H as (a & w1 & Hm & H); cbv beta in H.

Lemma exibir_menu_loop_return (fuel : nat) : forall (w w' : World),
  exibir_menu_loop fuel w = Return tt w' -> last (stdout w') = Some OutSaindo.
Proof.
  induction fuel as [|fuel IH]; intros w w' H; [discriminate|].
  simpl in H. peel H. peel H.
  destruct (String.eqb a0 "1"); [repeat peel H; eauto|].
  destruct (String.eqb a0 "2"); [repeat peel H; eauto|].
  destruct (String.eqb a0 "3"); [repeat peel H; eauto|].
  destruct (String.eqb a0 "4"); [repeat peel H; eauto|].
  destruct (String.eqb a0 "0").
  - inversion H; subst. simpl. apply last_snoc.
  - peel H. eauto.
Qed.

(** Whatever is typed, the program ends: it never needs more passes of the
    menu than there are lines to read.  It ends normally only by option 0,
    the farewell being the last thing it prints; otherwise it ends by an
    exception. *)
Theorem exibir_menu_ends (w : World) :
  reachable w ->
  exibir_menu w <> OutOfFuel /\
  (forall w', exibir_menu w = Return tt w' -> last (stdout w') = Some OutSaindo).
Proof.
  intros Hr. split.
  - intros H. pose proof (exibir_menu_post w (reachable_Inv w Hr)) as Hp.
    rewrite H in Hp. exact Hp.
  - intros w' H. unfold exibir_menu, enough_fuel, gets, mbind, M_bind in H.
    eapply exibir_menu_loop_return; eassumption.
Qed.

(** Witness for [exibir_menu_ends]: a new menu and the single line 0. *)
Lemma exibir_menu_ends_witness :
  exibir_menu (Menu_init ["0"%string]) <> OutOfFuel /\
  exists w', exibir_menu (Menu_init ["0"%string]) = Return tt w' /\
             last (stdout w') = Some OutSaindo.
Proof.
  destruct (exibir_menu_ends (Menu_init ["0"%string]) (reach_init _)) as [H1 H2].
  split; [exact H1|].
  eexists. split; [reflexivity|]. apply H2. reflexivity.
Defined.

(** ** Closing an order, then listing *)

Lemma relatorio_snoc (h : Heap) (ps : list Pedido.t) (p : Pedido.t) :
  relatorio h (ps ++ [p]) = relatorio h ps ++ relatorio_pedido h (S (Datatypes.length ps), p).
Proof.
  unfold relatorio, enumerate1. rewrite imap_app, flat_map_app. simpl.
  now rewrite app_nil_r, Nat.add_0_r.
Qed.

(** An order that was just closed is the last one listed: [listar_pedidos]
    then prints the orders there were, in their order, and after them the
    new one, numbered one more, for the customer it was opened for and with
    the very total that was printed when it was closed. *)
Theorem closed_order_is_listed_last (cpf : string) (c : Cliente.t) (w w1 : World) :
  reachable w ->
  dict_get cpf (clientes (menu w)) = Some c ->
  criar_pedido cpf w = Return tt w1 ->
  exists pedido t,
    Pedido.cliente pedido = c /\
    last (stdout w1) = Some (OutTotalDoPedido t) /\
    listar_pedidos w1 =
      Return tt (put (relatorio (heap w1) (pedidos (menu w))
                      ++ relatorio_pedido (heap w1)
                           (S (Datatypes.length (pedidos (menu w))), pedido)) w1) /\
    last (relatorio_pedido (heap w1) (S (Datatypes.length (pedidos (menu w))), pedido))
      = Some (OutTotal t).
Proof.
  intros Hr Hc H. pose proof (reachable_Inv w Hr) as HI.
  pose proof (post_criar_pedido cpf _ w (K_length w HI)) as Hpost.
  rewrite H in Hpost. destruct Hpost as [HI1 _].
  pose proof (listar_pedidos_ok w1 (inv_pedidos _ HI1)) as Hlist.
  rewrite (criar_pedido_found cpf w c Hc) in H.
  pose proof (criar_pedido_loop_post (S (Datatypes.length (stdin w))) (Pedido.init c) w
                ltac:(lia) HI ltac:(constructor)) as Hl.
  destruct (criar_pedido_loop _ _ w) as [p w0|e w0|] eqn:Hloop; [|discriminate|contradiction].
  destruct Hl as (_ & _ & Hm & _).
  pose proof (criar_pedido_loop_cliente _ _ _ _ _ Hloop) as Hcli.
  unfold fechar_pedido in H. munfold.
  destruct (Pedido.calcular_total (heap w0) p) as [e|t] eqn:Ht; simpl in H; [discriminate|].
  inversion H; subst w1. clear H. simpl in *.
  exists p, t. split; [exact Hcli|]. split; [apply last_snoc|].
  rewrite Hm in Hlist. rewrite relatorio_snoc in Hlist.
  split; [exact Hlist|].
  unfold relatorio_pedido. cbn [snd fst]. rewrite Ht. simpl.
  rewrite app_comm_cons. apply last_snoc.
Qed.

(** Witness for [closed_order_is_listed_last]: the order of three books. *)
Lemma closed_order_is_listed_last_witness :
  exists w1 pedido t,
    criar_pedido "000" (run ops_loja_aberta (Menu_init [])) = Return tt w1 /\
    last (stdout w1) = Some (OutTotalDoPedido t) /\
    last (relatorio_pedido (heap w1) (1%nat, pedido)) = Some (OutTotal t).
Proof.
  destruct (criar_pedido "000" (run ops_loja_aberta (Menu_init []))) as [[] w1|e w1|] eqn:H;
    [|vm_compute in H; discriminate|vm_compute in H; discriminate].
  destruct (closed_order_is_listed_last "000"
              (Cliente.mk (Pessoa.mk "Ana" "000" "ana@example.org") 0)
              (run ops_loja_aberta (Menu_init [])) w1) as (pedido & t & _ & H2 & _ & H4).
  - apply run_reachable, reach_init.
  - reflexivity.
  - exact H.
  - exists w1, pedido, t. split; [reflexivity|]. split; [exact H2|exact H4].
Defined.

(** ** No operation puts stock back *)

Lemma criar_pedido_iter_stock_le (pedido : Pedido.t) (w w' : World) :
  Inv w -> final (criar_pedido_iter pedido w) = Some w' ->
  Inv w' /\
  forall l, Produto.estoque (deref (heap w') l) <= Produto.estoque (deref (heap w) l).
Proof.
  intros HI Hf.
  pose proof (post_criar_pedido_iter pedido _ w (K_length w HI)) as Hpost.
  destruct (criar_pedido_iter_outcome pedido w)
    as [w1 Hm Hh _|w1 Hm Hh _|w1 Hm Hh _|w1 nome l0 q Hget Hq Hm Hh _];
    simpl in Hf; injection Hf as <-; simpl in Hpost.
  - split; [exact Hpost|]. intros l. rewrite Hh. lia.
  - split; [exact (proj1 Hpost)|]. intros l. rewrite Hh. lia.
  - split; [exact (proj1 Hpost)|]. intros l. rewrite Hh. lia.
  - split; [exact (proj1 Hpost)|]. intros l.
    pose proof (inv_dict w HI nome l0 Hget) as Hl0.
    rewrite Hh, deref_debitar by assumption.
    destruct (Nat.eqb_spec l l0) as [->|Hne]; simpl; lia.
Qed.

Lemma criar_pedido_loop_stock_le (fuel : nat) : forall (pedido : Pedido.t) (w w' : World),
  Inv w -> final (criar_pedido_loop fuel pedido w) = Some w' ->
  forall l, Produto.estoque (deref (heap w') l) <= Produto.estoque (deref (heap w) l).
Proof.
  induction fuel as [|fuel IH]; intros pedido w w' HI Hf l; [discriminate|].
  rewrite criar_pedido_loop_S in Hf.
  destruct (criar_pedido_iter pedido w) as [[p|p] w1|e w1|] eqn:Hit; try discriminate.
  - destruct (criar_pedido_iter_stock_le pedido w w1 HI) as [_ H1]; [now rewrite Hit|].
    simpl in Hf. injection Hf as <-. apply H1.
  - destruct (criar_pedido_iter_stock_le pedido w w1 HI) as [HI1 H1]; [now rewrite Hit|].
    specialize (IH p w1 w' HI1 Hf l). specialize (H1 l). lia.
  - destruct (criar_pedido_iter_stock_le pedido w w1 HI) as [_ H1]; [now rewrite Hit|].
    simpl in Hf. injection Hf as <-. apply H1.
Qed.

Lemma exec_stock_le (op : Op) (w w' : World) :
  Inv w -> final (exec op w) = Some w' ->
  forall l, (l < Datatypes.length (heap w))%nat ->
    Produto.estoque (deref (heap w') l) <= Produto.estoque (deref (heap w) l).
Proof.
  intros HI. destruct op as [nome cpf email|nome preco estoque|cpf| |linhas]; cbn [exec].
  - intros [= <-] l _. simpl. lia.
  - unfold cadastrar_produto. munfold.
    destruct (Produto.init nome preco estoque); simpl; intros [= <-] l Hl; simpl; [lia|].
    unfold deref. rewrite lookup_app_l by assumption. lia.
  - intros Hf l _.
    destruct (dict_get cpf (clientes (menu w))) as [c|] eqn:Hc.
    + rewrite (criar_pedido_found cpf w c Hc) in Hf.
      destruct (criar_pedido_loop _ _ w) as [p w1|e w1|] eqn:Hloop; [| |discriminate].
      * assert (Hh : heap w' = heap w1).
        { unfold fechar_pedido in Hf. munfold.
          destruct (Pedido.calcular_total (heap w1) p); simpl in Hf;
            injection Hf as <-; reflexivity. }
        rewrite Hh. eapply criar_pedido_loop_stock_le; [exact HI|].
        rewrite Hloop. reflexivity.
      * simpl in Hf. injection Hf as <-.
        eapply criar_pedido_loop_stock_le; [exact HI|]. rewrite Hloop. reflexivity.
    + unfold criar_pedido in Hf. munfold. rewrite Hc in Hf. simpl in Hf.
      injection Hf as <-. simpl. lia.
  - rewrite listar_pedidos_ok by apply (inv_pedidos w HI).
    simpl. intros [= <-] l _. simpl. lia.
  - simpl. intros [= <-] l _. simpl. lia.
Qed.

(** A product object is never renamed, repriced or restocked: after any
    further operations it is still in the store with the name and the price
    it had and a stock between 0 and the stock it had. *)
Theorem products_only_sell (ops : list Op) (w : World) (l : loc) (p : Produto.t) :
  reachable w ->
  heap w !! l = Some p ->
  exists p',
    heap (run ops w) !! l = Some p' /\
    Produto.nome p' = Produto.nome p /\
    Produto.preco p' = Produto.preco p /\
    0 <= Produto.estoque p' <= Produto.estoque p.
Proof.
  intros Hr. revert p. pose proof (reachable_Inv w Hr) as HI. clear Hr.
  revert w HI. induction ops as [|op rest IH]; intros w HI p Hp; simpl.
  - exists p. split; [assumption|]. split; [reflexivity|]. split; [reflexivity|].
    pose proof (proj1 (Forall_lookup _ _) (inv_heap w HI) l p Hp) as [_ H0]. lia.
  - destruct (exec_pedidos op w HI) as (w1 & Hf & _). rewrite Hf.
    pose proof (exec_Inv op w w1 HI Hf) as HI1.
    pose proof (lookup_lt_Some _ _ _ Hp) as Hlt.
    destruct (exec_heap_le op w w1 HI Hf) as [Hlen Hsame].
    destruct (Hsame l Hlt) as [Hpr Hnm].
    pose proof (exec_stock_le op w w1 HI Hf l Hlt) as Hst.
    destruct (lookup_lt_is_Some_2 (heap w1) l ltac:(lia)) as [p1 Hp1].
    rewrite (deref_lookup _ _ _ Hp1), (deref_lookup _ _ _ Hp) in *.
    destruct (IH w1 HI1 p1 Hp1) as (p' & H1 & H2 & H3 & H4).
    exists p'. split; [assumption|]. split; [congruence|]. split; [congruence|]. lia.
Qed.

(** Witness for [products_only_sell]: ten books registered, then three sold
    and the name registered again. *)
Lemma products_only_sell_witness :
  exists p',
    heap (run [Digitar ["Book"; "3"; "fim"]%string; CadastrarCliente "Ana" "000" "a";
               CriarPedido "000"; CadastrarProduto "Book" (DFinite false 2500 (-2)) 4]
              w_registrado) !! 0%nat = Some p' /\
    Produto.preco p' = DFinite false 1990 (-2) /\
    0 <= Produto.estoque p' <= 10.
Proof.
  destruct (products_only_sell
              [Digitar ["Book"; "3"; "fim"]%string; CadastrarCliente "Ana" "000" "a";
               CriarPedido "000"; CadastrarProduto "Book" (DFinite false 2500 (-2)) 4]
              w_registrado 0%nat (Produto.mk "Book" (DFinite false 1990 (-2)) 10))
    as (p' & H1 & _ & H3 & H4).
  - apply (reach_exec (CadastrarProduto "Book" (DFinite false 1990 (-2)) 10) (Menu_init []));
      [apply reach_init|reflexivity].
  - reflexivity.
  - exists p'. auto.
Defined.
